(** * Zero-copy array interchange: the ndarray and Eigen tutorials

    A shallow embedding of [tutorial/ndarray.cpp] and [tutorial/eigen.cpp]:
    array descriptors, ownership capsules, the view-based fill routines, the
    runtime specializer and the Eigen map helpers, together with the
    properties the interchange specification states about them. *)

From Stdlib Require Import ZArith Lia Floats.SpecFloat.
From stdpp Require Import base option list gmap strings.

Open Scope Z_scope.

(** ** Machine integers *)

(** [size_t] is a 64-bit unsigned integer; arithmetic on it wraps. *)
Definition size_t_modulus : Z := 2 ^ 64.

Definition wrap_size_t (z : Z) : Z := z mod size_t_modulus.

(** [sizeof(float)]. *)
Definition sizeof_float : Z := 4.

(** [PTRDIFF_MAX]: no object is larger than this many bytes. *)
Definition max_object_bytes : Z := 2 ^ 63 - 1.

(** [static_cast<int32_t>] of a [size_t]: keep the low 32 bits, read as
    two's complement. *)
Definition to_int32 (z : Z) : Z :=
  let w := z mod 2 ^ 32 in
  if w <? 2 ^ 31 then w else w - 2 ^ 32.

(** ** Single-precision floats

    [float] is IEEE-754 binary32: 24 bits of precision, infinities at
    exponent 128, rounding to nearest, ties to even. *)
Module Float32.
Definition prec : Z := 24.
Definition emax : Z := 128.

(** [static_cast<float>(z)] for an integer [z]. *)
Definition of_Z (z : Z) : spec_float := binary_normalize prec emax z 0 false.

(** The literal [0.5f]. *)
Definition half : spec_float := binary_normalize prec emax 1 (-1) false.

(** The literal [2.0f]. *)
Definition two : spec_float := of_Z 2.

Definition add : spec_float -> spec_float -> spec_float := SFadd prec emax.
Definition mul : spec_float -> spec_float -> spec_float := SFmul prec emax.

(** The integer a float denotes, when it denotes one. *)
Definition to_Z (x : spec_float) : option Z :=
  match x with
  | S754_zero _ => Some 0
  | S754_finite s m e =>
      let v := if s then Z.neg m else Z.pos m in
      match e with
      | Z0 => Some v
      | Zpos k => Some (v * 2 ^ Zpos k)
      | Zneg k => if (v mod 2 ^ Zpos k =? 0) then Some (v / 2 ^ Zpos k) else None
      end
  | _ => None
  end.
End Float32.

(** ** Element types, devices and memory cells *)

Inductive dtype_t :=
  | Int16 | Int32 | UInt8 | UInt32 | Float32 | Float64.

Inductive device_t := Cpu | Cuda.

Inductive order_t := RowMajor | ColMajor.

#[global] Instance dtype_eq_dec : EqDecision dtype_t.
Proof. solve_decision. Defined.
#[global] Instance device_eq_dec : EqDecision device_t.
Proof. solve_decision. Defined.
#[global] Instance order_eq_dec : EqDecision order_t.
Proof. solve_decision. Defined.

(** A memory cell holds one array element. *)
Inductive scalar :=
  | F32 (x : spec_float)
  | I32 (n : Z)
  | U8 (n : Z).

(** A pointer: an allocation and an element offset into it. *)
Record ptr := { p_block : nat; p_off : Z }.

(** Heap objects: a buffer of elements ([new float[n]], the storage of a
    [std::vector<float>]), or a [SharedArrays] struct owning the storage of
    its two vectors. *)
Inductive object :=
  | Buffer (cells : list scalar)
  | SharedArraysObj (vec_1 vec_2 : nat).

(** ** Errors *)

Inductive LifetimeError := DoubleRelease | UseAfterRelease.

(** [BadArrayNewLength] and [BadAlloc] are the exceptions of an array
    new-expression, [RuntimeError] is [std::runtime_error]; [InvalidAccess]
    and [InvalidFree] stand for undefined behaviour. *)
Inductive error :=
  | ErrLifetime (e : LifetimeError)
  | RuntimeError (msg : string)
  | BadArrayNewLength
  | BadAlloc
  | InvalidAccess (p : ptr)
  | InvalidFree (b : nat).

Inductive result (A : Type) :=
  | Ok (a : A)
  | Err (e : error).
Arguments Ok {A} a.
Arguments Err {A} e.

(** ** Program state *)

(** What a run does to memory and to owners, in order. *)
Inductive event :=
  | EvLoad (p : ptr)
  | EvStore (p : ptr)
  | EvRelease (token context : nat).

(** A release callback receives the opaque context pointer. *)
Definition callback : Type := nat -> gmap nat object -> result (gmap nat object).

Inductive token_state :=
  | Live (context : nat) (release : callback) (refcount : nat)
  | Invalid.

Record state := {
  heap : gmap nat object;
  tokens : gmap nat token_state;
  events : list event
}.

Definition set_heap (h : gmap nat object) (s : state) : state :=
  {| heap := h; tokens := tokens s; events := events s |}.

Definition set_tokens (t : gmap nat token_state) (s : state) : state :=
  {| heap := heap s; tokens := t; events := events s |}.

Definition log (e : event) (s : state) : state :=
  {| heap := heap s; tokens := tokens s; events := events s ++ [e] |}.

(** ** A state monad with exceptions

    A thrown exception keeps the state reached when it was thrown. *)
Definition M (A : Type) : Type := state -> result A * state.

Definition ret {A} (a : A) : M A := fun s => (Ok a, s).

Definition throw {A} (e : error) : M A := fun s => (Err e, s).

Definition bind {A B} (m : M A) (k : A -> M B) : M B :=
  fun s =>
    match m s with
    | (Ok a, s') => k a s'
    | (Err e, s') => (Err e, s')
    end.

Notation "'let*' x ':=' m 'in' k" := (bind m (fun x => k))
  (at level 10, x pattern, m at level 100, k at level 200).
Notation "m ';;' k" := (bind m (fun _ => k))
  (at level 100, k at level 200, right associativity).

(** [for (size_t i = lo; i < lo + n; ++i) body(i)]. *)
Fixpoint for_range (lo n : nat) (body : nat -> M unit) : M unit :=
  match n with
  | O => ret tt
  | S n' => body lo ;; for_range (S lo) n' body
  end.

(** [for (size_t i = 0; i < n; ++i) body(i)]. *)
Definition for_upto (n : nat) (body : nat -> M unit) : M unit := for_range 0 n body.

(** ** Memory access *)

Definition cell_index (cells : list scalar) (off : Z) : option nat :=
  if (0 <=? off) && (off <? Z.of_nat (length cells)) then Some (Z.to_nat off) else None.

(** The buffer a pointer points into, with the index of the element. *)
Definition resolve (h : gmap nat object) (p : ptr) : option (list scalar * nat) :=
  match h !! p_block p with
  | Some (Buffer cells) =>
      match cell_index cells (p_off p) with
      | Some i => Some (cells, i)
      | None => None
      end
  | _ => None
  end.

(** Touching memory outside a live buffer is undefined behaviour, reported
    as [InvalidAccess]. *)
Definition load (p : ptr) : M scalar :=
  fun s =>
    match resolve (heap s) p with
    | Some (cells, i) =>
        match cells !! i with
        | Some v => (Ok v, log (EvLoad p) s)
        | None => (Err (InvalidAccess p), s)
        end
    | None => (Err (InvalidAccess p), s)
    end.

Definition store (p : ptr) (v : scalar) : M unit :=
  fun s =>
    match resolve (heap s) p with
    | Some (cells, i) =>
        (Ok tt, log (EvStore p) (set_heap (<[p_block p := Buffer (<[i := v]> cells)]> (heap s)) s))
    | None => (Err (InvalidAccess p), s)
    end.

(** [new T[n]] / vector storage: a fresh allocation. *)
Definition alloc (o : object) : M nat :=
  fun s =>
    let b := fresh (dom (heap s)) in
    (Ok b, set_heap (<[b := o]> (heap s)) s).

(** [new float[n]]. A request for more bytes than an object can have, which
    is the case from 2^61 floats on, throws [std::bad_array_new_length]
    before any storage is asked for; a request the free store cannot meet
    throws [std::bad_alloc]. How many bytes the free store can provide when
    the expression is evaluated is not decided by the program: it is the
    parameter [free_store]. The floats are not initialised. *)
Definition new_float_array (free_store : Z) (n : nat) : M nat :=
  if max_object_bytes <? Z.of_nat n * sizeof_float then throw BadArrayNewLength
  else if free_store <? Z.of_nat n * sizeof_float then throw BadAlloc
  else alloc (Buffer (replicate n (F32 (S754_zero false)))).

(** A read that is not part of the run: what a later observer would see. *)
Definition peek (h : gmap nat object) (p : ptr) : option scalar :=
  match resolve h p with
  | Some (cells, i) => cells !! i
  | None => None
  end.

(** ** Array descriptors *)

Record ndarray := {
  data : ptr;
  dtype : dtype_t;
  device : device_t;
  shape : list nat;
  strides : list Z;
  owner : option nat
}.

Definition ndim (a : ndarray) : nat := length (shape a).
Definition shape_at (a : ndarray) (i : nat) : nat := nth i (shape a) 0%nat.
Definition stride_at (a : ndarray) (i : nat) : Z := nth i (strides a) 0.

Fixpoint numel (sh : list nat) : nat :=
  match sh with
  | [] => 1%nat
  | n :: rest => (n * numel rest)%nat
  end.

(** Packed strides, in elements: last axis fastest (row-major) ... *)
Fixpoint packed_c (sh : list nat) : list Z :=
  match sh with
  | [] => []
  | _ :: rest => Z.of_nat (numel rest) :: packed_c rest
  end.

(** ... or first axis fastest (column-major). *)
Fixpoint packed_f (acc : nat) (sh : list nat) : list Z :=
  match sh with
  | [] => []
  | n :: rest => Z.of_nat acc :: packed_f (acc * n) rest
  end.

Definition packed_strides (o : order_t) (sh : list nat) : list Z :=
  match o with
  | RowMajor => packed_c sh
  | ColMajor => packed_f 1 sh
  end.

Fixpoint axes_match (sh : list nat) (st expected : list Z) : bool :=
  match sh, st, expected with
  | [], [], [] => true
  | n :: sh', s :: st', e :: ex' => ((n =? 1)%nat || (s =? e)) && axes_match sh' st' ex'
  | _, _, _ => false
  end.

(** Modelled from the spec: [is_contiguous] of section 4.1, which the
    binding library evaluates at the boundary and which is not part of the
    tutorial sources. The layout is packed with no gaps in the given order;
    the stride of an axis of extent 1 is irrelevant, and an array with a
    zero extent is contiguous under both orders. *)
Definition is_contiguous (a : ndarray) (o : order_t) : bool :=
  (numel (shape a) =? 0)%nat || axes_match (shape a) (strides a) (packed_strides o (shape a)).

(** The elements of the array lie inside a live buffer, and that buffer
    fits the address space. *)
Definition valid_array (s : state) (a : ndarray) : bool :=
  match heap s !! p_block (data a) with
  | Some (Buffer cells) =>
      (0 <=? p_off (data a)) &&
      (p_off (data a) + Z.of_nat (numel (shape a)) <=? Z.of_nat (length cells)) &&
      (Z.of_nat (length cells) <? size_t_modulus)
  | _ => false
  end.

(** [arr(i, j)]: the element reference computed from the descriptor. *)
Definition elem_ref2 (a : ndarray) (i j : nat) : ptr :=
  {| p_block := p_block (data a);
     p_off := p_off (data a) + Z.of_nat i * stride_at a 0 + Z.of_nat j * stride_at a 1 |}.

(** ** Typed views

    [arr.view()]: the data pointer, extents and strides copied by value. *)
Record view2 := {
  v_data : ptr;
  v_shape : nat * nat;
  v_strides : Z * Z
}.

Definition view (a : ndarray) : view2 :=
  {| v_data := data a;
     v_shape := (shape_at a 0, shape_at a 1);
     v_strides := (stride_at a 0, stride_at a 1) |}.

Definition view_shape (v : view2) (axis : nat) : nat :=
  match axis with
  | O => fst (v_shape v)
  | _ => snd (v_shape v)
  end.

(** [view(i, j)]: flat offset [i * stride0 + j * stride1]. *)
Definition view_ref (v : view2) (i j : nat) : ptr :=
  {| p_block := p_block (v_data v);
     p_off := p_off (v_data v) + Z.of_nat i * fst (v_strides v) + Z.of_nat j * snd (v_strides v) |}.

(** [data(y, x, ch)] of a three-dimensional array. *)
Definition elem_ref3 (a : ndarray) (y x ch : nat) : ptr :=
  {| p_block := p_block (data a);
     p_off := p_off (data a) + Z.of_nat y * stride_at a 0 + Z.of_nat x * stride_at a 1
              + Z.of_nat ch * stride_at a 2 |}.

(** ** ndarray.cpp: image processing and the fill routines *)

(** [RGBImage] is an MxNx3 [uint8_t] array on the cpu. Each channel value is
    promoted to [int], doubled, capped at 255 and stored back. *)
Definition process_rgb_image (data : ndarray) : M unit :=
  for_upto (shape_at data 0) (fun y =>
    for_upto (shape_at data 1) (fun x =>
      for_upto 3 (fun ch =>
        let* v := load (elem_ref3 data y x ch) in
        match v with
        | U8 n => store (elem_ref3 data y x ch) (U8 (Z.min 255 (n * 2)))
        | _ => throw (InvalidAccess (elem_ref3 data y x ch))
        end))).

Definition fill_array_optimized (arr : ndarray) : M unit :=
  let v := view arr in
  for_upto (view_shape v 0) (fun i =>
    for_upto (view_shape v 1) (fun j =>
      store (view_ref v i j)
            (F32 (Float32.of_Z (wrap_size_t (Z.of_nat i * Z.of_nat j)))))).

Definition fill_array_regular (arr : ndarray) : M unit :=
  for_upto (shape_at arr 0) (fun i =>
    for_upto (shape_at arr 1) (fun j =>
      store (elem_ref2 arr i j)
            (F32 (Float32.of_Z (wrap_size_t (Z.of_nat i * Z.of_nat j)))))).

Definition fill_array_specialized (arr : ndarray) : M string :=
  if bool_decide (dtype arr = Float32) && (ndim arr =? 2)%nat then
    let v := view arr in
    for_upto (view_shape v 0) (fun i =>
      for_upto (view_shape v 1) (fun j =>
        store (view_ref v i j)
              (F32 (Float32.add (Float32.of_Z (wrap_size_t (Z.of_nat i * Z.of_nat j)))
                                Float32.half)))) ;;
    ret "Used specialized 2D float view"%string
  else if bool_decide (dtype arr = Int32) && (ndim arr =? 2)%nat then
    let v := view arr in
    for_upto (view_shape v 0) (fun i =>
      for_upto (view_shape v 1) (fun j =>
        store (view_ref v i j)
              (I32 (to_int32 (wrap_size_t (Z.of_nat i + Z.of_nat j)))))) ;;
    ret "Used specialized 2D int32 view"%string
  else
    ret "Unsupported array type or dimension"%string.

(** ** Ownership tokens *)

Module Token.

(** Modelled from the spec: [make_owner] of section 4.2 (the capsule
    constructor of the binding library, which is not part of the tutorial
    sources). The refcount starts at 1. *)
Definition make_owner (context : nat) (release : callback) : M nat :=
  fun s =>
    let t := fresh (dom (tokens s)) in
    (Ok t, set_tokens (<[t := Live context release 1]> (tokens s)) s).

(** Modelled from the spec: [acquire] of section 4.2. It increments the
    refcount and returns an equivalent handle; on an invalid token it is a
    reported programming error. *)
Definition acquire (t : nat) : M nat :=
  fun s =>
    match tokens s !! t with
    | Some (Live ctx rel rc) =>
        (Ok t, set_tokens (<[t := Live ctx rel (S rc)]> (tokens s)) s)
    | _ => (Err (ErrLifetime UseAfterRelease), s)
    end.

(** Modelled from the spec: [drop] of sections 4.2 and 8. It decrements the
    refcount; when it reaches zero it invokes [release(context)]
    synchronously and the token becomes invalid; a drop on an invalid token
    is reported as [DoubleRelease]. *)
Definition drop (t : nat) : M unit :=
  fun s =>
    match tokens s !! t with
    | Some (Live ctx rel rc) =>
        match (rc - 1)%nat with
        | O =>
            let s' := set_tokens (<[t := Invalid]> (tokens s)) (log (EvRelease t ctx) s) in
            match rel ctx (heap s) with
            | Ok h' => (Ok tt, set_heap h' s')
            | Err e => (Err e, s')
            end
        | S rc' => (Ok tt, set_tokens (<[t := Live ctx rel (S rc')]> (tokens s)) s)
        end
    | _ => (Err (ErrLifetime DoubleRelease), s)
    end.

Definition is_release_of (t : nat) (e : event) : bool :=
  match e with
  | EvRelease t' _ => (t' =? t)%nat
  | _ => false
  end.

(** How often the release callback of token [t] has run. *)
Definition releases (t : nat) (s : state) : nat :=
  length (List.filter (is_release_of t) (events s)).

End Token.

(** [delete] of a live allocation; anything else is a double free. *)
Definition free (b : nat) (h : gmap nat object) : result (gmap nat object) :=
  match h !! b with
  | Some _ => Ok (delete b h)
  | None => Err (InvalidFree b)
  end.

(** ** ndarray.cpp: buffer creation and hand-off *)

(** The capsule callback of [create_2d_array]: [delete[]] of the float
    array behind the context pointer. *)
Definition delete_float_array : callback :=
  fun p h =>
    match h !! p with
    | Some (Buffer _) => free p h
    | _ => Err (InvalidFree p)
    end.

(** The [ndarray] constructor taking a data pointer, a shape and an owner:
    C-contiguous strides, and one more reference to the owner. *)
Definition make_ndarray (p : nat) (sh : list nat) (own : nat) : M ndarray :=
  let* held := Token.acquire own in
  ret {| data := {| p_block := p; p_off := 0 |};
         dtype := Float32;
         device := Cpu;
         shape := sh;
         strides := packed_c sh;
         owner := Some held |}.

(** [create_2d_array(rows, cols)], run when the free store can provide
    [free_store] bytes. The product [rows * cols] is taken in [size_t]. *)
Definition create_2d_array (free_store : Z) (rows cols : nat) : M ndarray :=
  let n := Z.to_nat (wrap_size_t (Z.of_nat rows * Z.of_nat cols)) in
  let* data := new_float_array free_store n in
  for_upto n (fun i =>
    store {| p_block := data; p_off := Z.of_nat i |} (F32 (Float32.of_Z (Z.of_nat i)))) ;;
  let* owner := Token.make_owner data delete_float_array in
  let* result := make_ndarray data [rows; cols] owner in
  (* the local capsule handle goes out of scope *)
  Token.drop owner ;;
  ret result.

(** The capsule callback of [return_multiple_arrays]: [delete] of the
    [SharedArrays] struct behind the context pointer, which destroys both
    vectors. *)
Definition delete_shared_arrays : callback :=
  fun p h =>
    match h !! p with
    | Some (SharedArraysObj v1 v2) =>
        match free v2 h with
        | Ok h2 =>
            match free v1 h2 with
            | Ok h1 => free p h1
            | Err e => Err e
            end
        | Err e => Err e
        end
    | _ => Err (InvalidFree p)
    end.

(** [std::vector<float> v(n)]: [n] value-initialised floats. *)
Definition new_vector (n : nat) : M nat :=
  alloc (Buffer (replicate n (F32 (S754_zero false)))).

Definition return_multiple_arrays : M (ndarray * ndarray) :=
  let* increasing := new_vector 5 in
  for_upto 5 (fun i =>
    store {| p_block := increasing; p_off := Z.of_nat i |}
          (F32 (Float32.of_Z (Z.of_nat i)))) ;;
  let* decreasing := new_vector 10 in
  for_upto 10 (fun i =>
    store {| p_block := decreasing; p_off := Z.of_nat i |}
          (F32 (Float32.of_Z (wrap_size_t (10 - Z.of_nat i - 1))))) ;;
  (* the vectors are moved into the struct: their storage changes owner *)
  let* shared := alloc (SharedArraysObj increasing decreasing) in
  let* deleter := Token.make_owner shared delete_shared_arrays in
  let size_1 := 5%nat in
  let size_2 := 10%nat in
  let* a1 := make_ndarray increasing [size_1] deleter in
  let* a2 := make_ndarray decreasing [size_2] deleter in
  Token.drop deleter ;;
  ret (a1, a2).

(** [arr(i)] of a one-dimensional array. *)
Definition elem_ref1 (a : ndarray) (i : nat) : ptr :=
  {| p_block := p_block (data a);
     p_off := p_off (data a) + Z.of_nat i * stride_at a 0 |}.

(** ** eigen.cpp *)

(** [Eigen::Map<VectorXf>(p, n)]: [n] consecutive floats starting at [p]. *)
Record eigen_map := { m_data : ptr; m_size : nat }.

Definition coeff_ref (m : eigen_map) (k : nat) : ptr :=
  {| p_block := p_block (m_data m); p_off := p_off (m_data m) + Z.of_nat k |}.

(** [m *= c]: every coefficient of the map is scaled in place. Reading a
    cell that does not hold a float is undefined behaviour. *)
Definition scale_in_place (m : eigen_map) (c : spec_float) : M unit :=
  for_upto (m_size m) (fun k =>
    let* v := load (coeff_ref m k) in
    match v with
    | F32 x => store (coeff_ref m k) (F32 (Float32.mul x c))
    | _ => throw (InvalidAccess (coeff_ref m k))
    end).

Definition map_vector (array : ndarray) : M unit :=
  if negb (ndim array =? 1)%nat then
    throw (RuntimeError "Expected a 1D array")
  else
    let vec := {| m_data := data array; m_size := shape_at array 0 |} in
    scale_in_place vec Float32.two.

Definition map_matrix (array : ndarray) : M unit :=
  if negb (ndim array =? 2)%nat then
    throw (RuntimeError "Expected a 2D array")
  else
    let mat := {| m_data := data array;
                  m_size := (shape_at array 0 * shape_at array 1)%nat |} in
    scale_in_place mat Float32.two.

(** [vector_modify] takes an [Eigen::Ref<VectorXf>], a writable vector
    mapped onto the caller's memory. Only a non-empty vector is touched:
    its first coefficient is set to [99.0f] and then read back for the
    message. *)
Definition vector_modify (v : ndarray) : M unit :=
  if 0 <? Z.of_nat (shape_at v 0) then
    store (elem_ref1 v 0) (F32 (Float32.of_Z 99)) ;;
    let* _ := load (elem_ref1 v 0) in
    ret tt
  else ret tt.

(** [x(row, col)] of an Eigen matrix mapped onto an array. Eigen requires
    [0 <= row < rows()] and [0 <= col < cols()]: outside that range its
    assertion fails, and in a build without assertions the access is
    undefined. Either way the call has no result, reported as
    [InvalidAccess] like every undefined access. *)
Definition coeff_ref2 (x : ndarray) (row col : nat) : M ptr :=
  if (row <? shape_at x 0)%nat && (col <? shape_at x 1)%nat
  then ret (elem_ref2 x row col)
  else throw (InvalidAccess (elem_ref2 x row col)).

(** [matrix_modify] takes an [Eigen::Ref<ColMatrixXf>] and sets the
    coefficient [(0, 0)] to [99.0f], then reads it back for the message.
    The function itself does not check that the matrix has a coefficient;
    the coefficient access does. *)
Definition matrix_modify (x : ndarray) : M unit :=
  let* p := coeff_ref2 x 0 0 in
  store p (F32 (Float32.of_Z 99)) ;;
  let* q := coeff_ref2 x 0 0 in
  let* _ := load q in
  ret tt.

(** ** ndarray.cpp: a view of a [Matrix4f] *)

(** [Matrix4f] holds [float m[4][4] = {}]: sixteen zeros. Its bound
    constructor allocates one. *)
Definition Matrix4f_init : M nat :=
  alloc (Buffer (replicate 16 (F32 (S754_zero false)))).

(** [matrix4f_view]: a 4x4 float array over the member [m] itself, with no
    owner of its own. *)
Definition matrix4f_view (matrix : nat) : ndarray :=
  {| data := {| p_block := matrix; p_off := 0 |};
     dtype := Float32;
     device := Cpu;
     shape := [4; 4]%nat;
     strides := packed_c [4; 4]%nat;
     owner := None |}.

(** ** eigen.cpp: matrices and vectors returned by value *)

(** A dense Eigen matrix: its extents, its storage order and its
    coefficients in storage order. A vector is a matrix of one column. *)
Record dense := {
  d_rows : nat;
  d_cols : nat;
  d_order : order_t;
  d_coeffs : list spec_float
}.

(** [Matrix mat(rows, cols)]: storage for [rows * cols] coefficients, not
    yet meaningful. *)
Definition dense_new (o : order_t) (rows cols : nat) : dense :=
  {| d_rows := rows; d_cols := cols; d_order := o;
     d_coeffs := replicate (rows * cols) (S754_zero false) |}.

(** Where the coefficient [(r, c)] is stored. *)
Definition coeff_index (m : dense) (r c : nat) : nat :=
  match d_order m with
  | ColMajor => (r + c * d_rows m)%nat
  | RowMajor => (r * d_cols m + c)%nat
  end.

(** [mat(r, c)] read; an index outside the extents has no coefficient. *)
Definition coeff (m : dense) (r c : nat) : option spec_float :=
  if (r <? d_rows m)%nat && (c <? d_cols m)%nat then d_coeffs m !! coeff_index m r c
  else None.

(** [mat(r, c) = v]. *)
Definition set_coeff (m : dense) (r c : nat) (v : spec_float) : dense :=
  {| d_rows := d_rows m; d_cols := d_cols m; d_order := d_order m;
     d_coeffs := <[coeff_index m r c := v]> (d_coeffs m) |}.

(** [for (int i = lo; i < lo + n; i++) body(i)] over local variables of
    type [L]. *)
Fixpoint iterate {L : Type} (lo n : nat) (body : nat -> L -> L) (s : L) : L :=
  match n with
  | O => s
  | S n' => iterate (S lo) n' body (body lo s)
  end.

(** [mat(r, c) = ++count]: the counter is an [int], the coefficient its
    conversion to [float]. *)
Definition store_next_count (r c : nat) (st : dense * Z) : dense * Z :=
  let count := to_int32 (snd st + 1) in
  (set_coeff (fst st) r c (Float32.of_Z count), count).

Definition matrix_colmajor (rows cols : nat) : dense :=
  let mat := dense_new ColMajor rows cols in
  let count := 0 in
  fst (iterate 0 cols (fun c => iterate 0 rows (fun r => store_next_count r c)) (mat, count)).

Definition matrix_rowmajor (rows cols : nat) : dense :=
  let mat := dense_new RowMajor rows cols in
  let count := 0 in
  fst (iterate 0 rows (fun r => iterate 0 cols (fun c => store_next_count r c)) (mat, count)).

(** [a + b] on two column-major matrices: coefficient by coefficient. Eigen
    asserts that the extents agree; without them there is no result. *)
Definition matrix_sum (a b : dense) : option dense :=
  if (d_rows a =? d_rows b)%nat && (d_cols a =? d_cols b)%nat then
    Some {| d_rows := d_rows a; d_cols := d_cols a; d_order := ColMajor;
            d_coeffs := zip_with Float32.add (d_coeffs a) (d_coeffs b) |}
  else None.

(** [vec(i) = i + 1.0f]: the index is converted to [float] and the sum is
    taken in [float]. *)
Definition vector_create (size : nat) : dense :=
  let vec := dense_new ColMajor size 1 in
  iterate 0 size (fun i vec =>
    set_coeff vec i 0 (Float32.add (Float32.of_Z (Z.of_nat i)) (Float32.of_Z 1))) vec.

(** ** Vocabulary of the statements *)

(** The state after a run that left [cells] in block [b] through the stores
    [ps], in that order. *)
Definition written (b : nat) (cells : list scalar) (ps : list ptr) (s : state) : state :=
  {| heap := <[b := Buffer cells]> (heap s);
     tokens := tokens s;
     events := events s ++ map EvStore ps |}.

(** The values a row-by-row fill leaves, in memory order. *)
Definition rows_of {A} (f : nat -> nat -> A) (r c : nat) : list A :=
  flat_map (fun i => map (f i) (seq 0 c)) (seq 0 r).

(** The buffer of block contents after the elements of a packed array that
    starts at offset [o] have been replaced by [vs]. *)
Definition patch (cells : list scalar) (o : nat) (vs : list scalar) : list scalar :=
  take o cells ++ vs ++ skipn (o + length vs) cells.

(** The elements of a two-dimensional array as a later reader sees them,
    row by row. *)
Definition contents2 (h : gmap nat object) (a : ndarray) : list (list (option scalar)) :=
  map (fun i => map (fun j => peek h (elem_ref2 a i j)) (seq 0 (shape_at a 1)))
      (seq 0 (shape_at a 0)).

(** The fill patterns of the two specialised branches. *)
Definition float_pattern (i j : nat) : scalar :=
  F32 (Float32.add (Float32.of_Z (wrap_size_t (Z.of_nat i * Z.of_nat j))) Float32.half).

Definition int32_pattern (i j : nat) : scalar :=
  I32 (to_int32 (wrap_size_t (Z.of_nat i + Z.of_nat j))).

(** A state holding one buffer of [n] zeroed floats in block 0. *)
Definition sample_state (n : nat) : state :=
  {| heap := {[ 0%nat := Buffer (replicate n (F32 (S754_zero false))) ]};
     tokens := ∅;
     events := [] |}.

(** A packed row-major array over block 0. *)
Definition sample_array (dt : dtype_t) (sh : list nat) : ndarray :=
  {| data := {| p_block := 0; p_off := 0 |};
     dtype := dt;
     device := Cpu;
     shape := sh;
     strides := packed_c sh;
     owner := None |}.

(** The operations a holder can perform on tokens. *)
Inductive token_op :=
  | OpAcquire (t : nat)
  | OpDrop (t : nat).

Definition run_op (op : token_op) (s : state) : state :=
  match op with
  | OpAcquire t => snd (Token.acquire t s)
  | OpDrop t => snd (Token.drop t s)
  end.

Definition run_ops (ops : list token_op) (s : state) : state :=
  foldl (fun s op => run_op op s) s ops.

(** The descriptors and views that hold token [t] after [ops], when [n]
    held it before: an acquire of [t] adds a holder, a drop of [t] takes one
    away, and a token that nobody holds any more cannot be taken up
    again. *)
Fixpoint holders (t : nat) (ops : list token_op) (n : nat) : nat :=
  match ops with
  | [] => n
  | OpAcquire t' :: ops' =>
      holders t ops' (if (t' =? t)%nat && (0 <? n)%nat then S n else n)
  | OpDrop t' :: ops' =>
      holders t ops' (if (t' =? t)%nat then (n - 1)%nat else n)
  end.

(** Token [t] in a state in which [n] holders reference it: live with
    refcount [n] and its callback not run while [n] is positive, invalid
    with its callback run once when [n] is zero. *)
Definition held_by (t ctx : nat) (rel : callback) (n : nat) (s : state) : Prop :=
  tokens s !! t = Some (match n with O => Invalid | S _ => Live ctx rel n end) /\
  Token.releases t s = match n with O => 1%nat | S _ => 0%nat end.

(** A state in which token 0 owns the buffer in block 0 and has one
    holder. *)
Definition owned_state : state :=
  {| heap := {[ 0%nat := Buffer (replicate 4 (F32 (S754_zero false))) ]};
     tokens := {[ 0%nat := Live 0 delete_float_array 1 ]};
     events := [] |}.

(** The elements of the two exported vectors. *)
Definition increasing_values : list scalar :=
  map (fun i : nat => F32 (Float32.of_Z (Z.of_nat i))) (seq 0 5).

Definition decreasing_values : list scalar :=
  map (fun i : nat => F32 (Float32.of_Z (wrap_size_t (10 - Z.of_nat i - 1)))) (seq 0 10).

(** The elements of a one-dimensional array as a later reader sees them. *)
Definition contents1 (h : gmap nat object) (a : ndarray) : list (option scalar) :=
  map (fun k => peek h (elem_ref1 a k)) (seq 0 (shape_at a 0)).

(** A float32 vector [1, 2, 3, 4] in block 0 ... *)
Definition strided_state : state :=
  {| heap := {[ 0%nat := Buffer (map (fun z => F32 (Float32.of_Z z)) [1; 2; 3; 4]) ]};
     tokens := ∅;
     events := [] |}.

(** ... and the view of every second element of it: [1, 3]. *)
Definition strided_array : ndarray :=
  {| data := {| p_block := 0; p_off := 0 |};
     dtype := Float32;
     device := Cpu;
     shape := [2%nat];
     strides := [2];
     owner := None |}.

(** A command on a matrix and its counter fills the [len] coefficients
    stored from position [o] on with the next [len] counter values, in
    storage order, and leaves the other coefficients alone. *)
Definition fills (R C : nat) (O : order_t) (cmd : dense * Z -> dense * Z) (o len : nat) : Prop :=
  forall pre mid post count,
    length pre = o -> length mid = len ->
    0 <= count -> count + Z.of_nat len < 2 ^ 31 ->
    cmd ({| d_rows := R; d_cols := C; d_order := O; d_coeffs := pre ++ mid ++ post |}, count)
    = ({| d_rows := R; d_cols := C; d_order := O;
          d_coeffs := pre ++ map (fun k : nat => Float32.of_Z (count + 1 + Z.of_nat k))
                                 (seq 0 len) ++ post |},
       count + Z.of_nat len).

(** The coefficients [1, 2, ..., n] as floats. *)
Definition counting (n : nat) : list spec_float :=
  map (fun k : nat => Float32.of_Z (Z.of_nat k + 1)) (seq 0 n).

(** A command rewrites the [len] cells of block [b] from position [o] on
    by [f], provided they satisfy [P], and leaves everything else alone. *)
Definition updates (b : nat) (P : scalar -> Prop) (f : scalar -> scalar)
    (cmd : M unit) (o len : nat) : Prop :=
  forall pre mid post s,
    heap s !! b = Some (Buffer (pre ++ mid ++ post)) ->
    length pre = o -> length mid = len -> Forall P mid ->
    exists s',
      cmd s = (Ok tt, s') /\
      heap s' = <[b := Buffer (pre ++ map f mid ++ post)]> (heap s) /\
      tokens s' = tokens s.

(** What [process_rgb_image] does to one channel value. *)
Definition brighten (v : scalar) : scalar :=
  match v with
  | U8 n => U8 (Z.min 255 (n * 2))
  | _ => v
  end.

Definition is_u8 (v : scalar) : Prop := exists n, v = U8 n.

(** * Properties *)

(** ** Single-precision conversions *)

Lemma digits2_pos_lower p : 2 ^ (Zpos (digits2_pos p) - 1) <= Zpos p.
Proof.
  induction p as [p IH|p IH|]; simpl digits2_pos.
  - rewrite Pos2Z.inj_succ.
    replace (Z.succ (Z.pos (digits2_pos p)) - 1)
      with (Z.succ (Z.pos (digits2_pos p) - 1)) by lia.
    rewrite Z.pow_succ_r by lia. lia.
  - rewrite Pos2Z.inj_succ.
    replace (Z.succ (Z.pos (digits2_pos p)) - 1)
      with (Z.succ (Z.pos (digits2_pos p) - 1)) by lia.
    rewrite Z.pow_succ_r by lia. lia.
  - simpl. lia.
Qed.

Lemma digits2_pos_bound p n : 0 <= n -> Zpos p < 2 ^ n -> Zpos (digits2_pos p) <= n.
Proof.
  intros Hn Hp. destruct (Z_le_gt_dec (Zpos (digits2_pos p)) n) as [|Hgt]; [done|].
  pose proof (digits2_pos_lower p).
  assert (2 ^ n <= 2 ^ (Z.pos (digits2_pos p) - 1)) by (apply Z.pow_le_mono_r; lia).
  lia.
Qed.

Lemma iter_xO_value p k : Zpos (Pos.iter xO p k) = Zpos p * 2 ^ Zpos k.
Proof.
  induction k as [|k IH] using Pos.peano_ind.
  - simpl. lia.
  - rewrite Pos.iter_succ, Pos2Z.inj_succ, Z.pow_succ_r by lia.
    rewrite Pos2Z.inj_xO, IH. lia.
Qed.

Lemma iter_xO_digits p k :
  Zpos (digits2_pos (Pos.iter xO p k)) = Zpos (digits2_pos p) + Zpos k.
Proof.
  induction k as [|k IH] using Pos.peano_ind.
  - simpl. lia.
  - rewrite Pos.iter_succ. simpl digits2_pos. rewrite !Pos2Z.inj_succ, IH. lia.
Qed.

(** A mantissa of exactly 24 digits with a small exponent is kept as it is. *)
Lemma binary_round_aux_exact m e :
  Zpos (digits2_pos m) = 24 -> -149 <= e <= 104 ->
  binary_round_aux 24 128 false (Zpos m) e loc_Exact = S754_finite false m e.
Proof.
  intros Hd He.
  assert (Hf : fexp 24 128 (24 + e) - e = 0).
  { unfold fexp, emin. lia. }
  unfold binary_round_aux, shr_fexp. simpl Zdigits2. rewrite Hd, Hf. simpl.
  rewrite Hd, Hf. simpl.
  replace (e <=? 128 - 24) with true by (symmetry; apply Z.leb_le; lia). reflexivity.
Qed.

(** Integers up to [2^24] are represented exactly. *)
Lemma Float32_of_Z_exact z :
  0 <= z <= 2 ^ 24 -> Float32.to_Z (Float32.of_Z z) = Some z.
Proof.
  intros Hz. destruct (Z.eq_dec z (2 ^ 24)) as [->|Hne]; [reflexivity|].
  destruct z as [|p|p]; [reflexivity| |lia].
  assert (Hd : Zpos (digits2_pos p) <= 24) by (apply digits2_pos_bound; lia).
  pose proof (Pos2Z.is_pos (digits2_pos p)) as Hd0.
  unfold Float32.of_Z, Float32.prec, Float32.emax, binary_normalize, binary_round.
  replace (fexp 24 128 (Zpos (digits2_pos p) + 0)) with (Zpos (digits2_pos p) - 24)
    by (unfold fexp, emin; lia).
  unfold shl_align.
  destruct (Zpos (digits2_pos p) - 24 - 0) as [|k|k] eqn:Hk; [|lia|].
  - rewrite binary_round_aux_exact by lia. reflexivity.
  - rewrite binary_round_aux_exact.
    + replace (Zpos (digits2_pos p) - 24) with (Zneg k) by lia.
      unfold Float32.to_Z. rewrite iter_xO_value.
      rewrite Z.mod_mul by lia. simpl Z.eqb. cbv iota.
      rewrite Z.div_mul by lia. reflexivity.
    + rewrite iter_xO_digits. lia.
    + lia.
Qed.

(** Above [2^24] the conversion rounds: 16777217 becomes 16777216. *)
Lemma Float32_of_Z_rounds : Float32.to_Z (Float32.of_Z 16777217) = Some 16777216.
Proof. vm_compute. reflexivity. Qed.

(** ** Stores performed by loops *)

Section StoreLoops.

(** The block all stores of the loop go to. *)
Variable b : nat.

Lemma written_nil cells s :
  heap s !! b = Some (Buffer cells) -> written b cells [] s = s.
Proof.
  intros Hb. destruct s as [h t ev]. unfold written. simpl in *.
  rewrite insert_id by done. by rewrite app_nil_r.
Qed.

Lemma written_written c1 c2 p1 p2 s :
  written b c2 p2 (written b c1 p1 s) = written b c2 (p1 ++ p2) s.
Proof.
  unfold written. simpl. rewrite insert_insert_eq.
  by rewrite map_app, app_assoc.
Qed.

Lemma heap_written cells ps s : heap (written b cells ps s) !! b = Some (Buffer cells).
Proof. unfold written. simpl. apply lookup_insert_eq. Qed.

Lemma cell_index_middle (pre post : list scalar) x :
  cell_index (pre ++ x :: post) (Z.of_nat (length pre)) = Some (length pre).
Proof.
  unfold cell_index. rewrite length_app. simpl.
  replace (0 <=? Z.of_nat (length pre)) with true by (symmetry; apply Z.leb_le; lia).
  replace (Z.of_nat (length pre) <? Z.of_nat (length pre + S (length post))) with true
    by (symmetry; apply Z.ltb_lt; lia).
  simpl. by rewrite Nat2Z.id.
Qed.

Lemma store_middle pre x post v s :
  heap s !! b = Some (Buffer (pre ++ x :: post)) ->
  store {| p_block := b; p_off := Z.of_nat (length pre) |} v s
  = (Ok tt, written b (pre ++ v :: post)
                    [{| p_block := b; p_off := Z.of_nat (length pre) |}] s).
Proof.
  intros Hb. unfold store, resolve. simpl. rewrite Hb, cell_index_middle.
  replace (<[length pre := v]> (pre ++ x :: post)) with (pre ++ v :: post).
  - reflexivity.
  - replace (length pre) with (length pre + 0)%nat at 1 by lia.
    by rewrite insert_app_r.
Qed.

Lemma for_range_store_segment (ref : nat -> ptr) (val : nat -> scalar) n :
  forall lo pre mid post s,
    heap s !! b = Some (Buffer (pre ++ mid ++ post)) ->
    length mid = n ->
    (forall k, (k < n)%nat ->
       ref (lo + k)%nat = {| p_block := b; p_off := Z.of_nat (length pre + k) |}) ->
    for_range lo n (fun j => store (ref j) (val j)) s
    = (Ok tt, written b (pre ++ map val (seq lo n) ++ post) (map ref (seq lo n)) s).
Proof.
  induction n as [|n IH]; intros lo pre mid post s Hb Hlen Href.
  - destruct mid; [|discriminate]. simpl in *.
    unfold ret. by rewrite written_nil.
  - destruct mid as [|x mid]; [discriminate|]. simpl in Hlen.
    cbn [for_range]. unfold bind at 1.
    specialize (Href 0%nat ltac:(lia)) as Href0.
    rewrite !Nat.add_0_r in Href0. rewrite Href0.
    rewrite (store_middle pre x (mid ++ post) (val lo) s Hb).
    rewrite (IH (S lo) (pre ++ [val lo]) mid post).
    + rewrite written_written. simpl. rewrite <- !app_assoc. simpl.
      by rewrite Href0.
    + rewrite heap_written. by rewrite <- app_assoc.
    + lia.
    + intros k Hk. rewrite length_app. simpl.
      replace (S (lo + k))%nat with (lo + S k)%nat by lia.
      rewrite Href by lia. do 2 f_equal. lia.
Qed.

Lemma for_range_store_rows (ref : nat -> nat -> ptr) (val : nat -> nat -> scalar) c r :
  forall lo pre mid post s,
    heap s !! b = Some (Buffer (pre ++ mid ++ post)) ->
    length mid = (r * c)%nat ->
    (forall i j, (i < r)%nat -> (j < c)%nat ->
       ref (lo + i)%nat j = {| p_block := b; p_off := Z.of_nat (length pre + (i * c + j)) |}) ->
    for_range lo r (fun i => for_range 0 c (fun j => store (ref i j) (val i j))) s
    = (Ok tt, written b (pre ++ flat_map (fun i => map (val i) (seq 0 c)) (seq lo r) ++ post)
                      (flat_map (fun i => map (ref i) (seq 0 c)) (seq lo r)) s).
Proof.
  induction r as [|r IH]; intros lo pre mid post s Hb Hlen Href.
  - destruct mid; [|discriminate]. simpl in *.
    unfold ret. by rewrite written_nil.
  - cbn [for_range]. unfold bind at 1.
    rewrite <- (take_drop c mid) in Hb. rewrite <- app_assoc in Hb.
    assert (Htake : length (take c mid) = c) by (rewrite length_take; lia).
    assert (Hdrop : length (drop c mid) = (r * c)%nat) by (rewrite length_drop; lia).
    rewrite (for_range_store_segment (ref lo) (val lo) c 0%nat pre (take c mid)
               (drop c mid ++ post) s Hb Htake).
    2:{ intros k Hk. simpl. specialize (Href 0%nat k ltac:(lia) Hk).
        rewrite Nat.add_0_r in Href. by rewrite Href. }
    rewrite (IH (S lo) (pre ++ map (val lo) (seq 0 c)) (drop c mid) post).
    + rewrite written_written. simpl. by rewrite <- !app_assoc.
    + rewrite heap_written. by rewrite <- app_assoc.
    + done.
    + intros i j Hi Hj. rewrite length_app, length_map, length_seq.
      replace (S lo + i)%nat with (lo + S i)%nat by lia.
      rewrite Href by lia. do 2 f_equal. lia.
Qed.

End StoreLoops.

Lemma lookup_rows {A} (f : nat -> nat -> A) c r :
  forall lo i j, (i < r)%nat -> (j < c)%nat ->
    flat_map (fun i => map (f i) (seq 0 c)) (seq lo r) !! (i * c + j)%nat
    = Some (f (lo + i)%nat j).
Proof.
  induction r as [|r IH]; intros lo i j Hi Hj; [lia|].
  simpl. destruct i as [|i].
  - rewrite lookup_app_l by (rewrite length_map, length_seq; lia).
    simpl. rewrite list_lookup_fmap, lookup_seq_lt by done. simpl.
    by rewrite Nat.add_0_r.
  - rewrite lookup_app_r by (rewrite length_map, length_seq; lia).
    rewrite length_map, length_seq.
    replace (S i * c + j - c)%nat with (i * c + j)%nat by lia.
    rewrite IH by lia. f_equal. f_equal. lia.
Qed.

Lemma length_rows {A} (f : nat -> nat -> A) c r lo :
  length (flat_map (fun i => map (f i) (seq 0 c)) (seq lo r)) = (r * c)%nat.
Proof.
  revert lo. induction r as [|r IH]; intros lo; simpl; [done|].
  by rewrite length_app, length_map, length_seq, IH.
Qed.

Lemma peek_segment h b (pre mid post : list scalar) k v :
  h !! b = Some (Buffer (pre ++ mid ++ post)) ->
  mid !! k = Some v ->
  peek h {| p_block := b; p_off := Z.of_nat (length pre + k) |} = Some v.
Proof.
  intros Hb Hk. pose proof (lookup_lt_Some _ _ _ Hk) as Hlt.
  unfold peek, resolve, cell_index. simpl. rewrite Hb.
  replace (0 <=? Z.of_nat (length pre + k)) with true by (symmetry; apply Z.leb_le; lia).
  replace (Z.of_nat (length pre + k) <? Z.of_nat (length (pre ++ mid ++ post))) with true
    by (symmetry; apply Z.ltb_lt; rewrite !length_app; lia).
  simpl. rewrite Nat2Z.id.
  rewrite lookup_app_r by lia.
  replace (length pre + k - length pre)%nat with k by lia.
  by rewrite lookup_app_l.
Qed.

(** ** Contiguous addressing *)

(** In a C-contiguous two-dimensional array the element [(i, j)] sits
    [i * cols + j] elements after the first. *)
Lemma c_contig_offset a r c i j :
  shape a = [r; c] ->
  is_contiguous a RowMajor = true ->
  (i < r)%nat -> (j < c)%nat ->
  Z.of_nat i * stride_at a 0 + Z.of_nat j * stride_at a 1 = Z.of_nat (i * c + j).
Proof.
  intros Hsh Hc Hi Hj. unfold is_contiguous, stride_at in *. rewrite Hsh in Hc.
  apply orb_true_iff in Hc as [Hz|Hm].
  - apply Nat.eqb_eq in Hz. simpl in Hz. nia.
  - destruct (strides a) as [|s0 [|s1 [|? ?]]]; simpl in Hm;
      rewrite ?andb_false_r, ?andb_true_r in Hm; try discriminate.
    apply andb_true_iff in Hm as [H0 H1].
    apply orb_true_iff in H0 as [H0|H0]; apply orb_true_iff in H1 as [H1|H1];
      try apply Nat.eqb_eq in H0; try apply Nat.eqb_eq in H1;
      try apply Z.eqb_eq in H0; try apply Z.eqb_eq in H1; simpl;
      try (assert (i = 0%nat) by lia); try (assert (j = 0%nat) by lia); subst;
      rewrite ?Nat2Z.inj_add, ?Nat2Z.inj_mul; simpl; lia.
Qed.

Lemma valid_array_inv s a :
  valid_array s a = true ->
  exists cells,
    heap s !! p_block (data a) = Some (Buffer cells) /\
    0 <= p_off (data a) /\
    p_off (data a) + Z.of_nat (numel (shape a)) <= Z.of_nat (length cells) /\
    Z.of_nat (length cells) < size_t_modulus.
Proof.
  unfold valid_array. intros H.
  destruct (heap s !! p_block (data a)) as [[cells|]|]; try discriminate.
  apply andb_true_iff in H as [H H3]. apply andb_true_iff in H as [H1 H2].
  exists cells. repeat split; [apply Z.leb_le | apply Z.leb_le | apply Z.ltb_lt]; done.
Qed.

Lemma length_patch cells o vs :
  (o + length vs <= length cells)%nat -> length (patch cells o vs) = length cells.
Proof.
  intros H. unfold patch. rewrite !length_app, length_take, length_skipn. lia.
Qed.

(** A two-level loop that stores [val i j] through references addressing a
    valid C-contiguous array writes exactly the elements of that array. *)
Lemma fill_rows_contig (ref : nat -> nat -> ptr) (val : nat -> nat -> scalar) a s r c :
  shape a = [r; c] ->
  is_contiguous a RowMajor = true ->
  valid_array s a = true ->
  (forall i j, ref i j = elem_ref2 a i j) ->
  exists cells,
    heap s !! p_block (data a) = Some (Buffer cells) /\
    (Z.to_nat (p_off (data a)) + r * c <= length cells)%nat /\
    Z.of_nat (length cells) < size_t_modulus /\
    for_upto r (fun i => for_upto c (fun j => store (ref i j) (val i j))) s
    = (Ok tt, written (p_block (data a))
                      (patch cells (Z.to_nat (p_off (data a))) (rows_of val r c))
                      (rows_of ref r c) s).
Proof.
  intros Hsh Hc Hv Href.
  destruct (valid_array_inv _ _ Hv) as (cells & Hb & Hoff & Hlen & Hfit).
  rewrite Hsh in Hlen. simpl in Hlen. rewrite Nat.mul_1_r in Hlen.
  set (o := Z.to_nat (p_off (data a))).
  assert (Ho : (o + r * c <= length cells)%nat) by lia.
  exists cells. split; [done|]. split; [done|]. split; [done|].
  unfold for_upto, patch, rows_of.
  rewrite (length_rows val c r 0%nat).
  rewrite <- (take_drop o cells) in Hb.
  rewrite <- (take_drop (r * c) (skipn o cells)) in Hb.
  rewrite drop_drop in Hb.
  apply (for_range_store_rows (p_block (data a)) ref val c r 0%nat _ _ _ s Hb).
  - rewrite length_take, length_skipn. lia.
  - intros i j Hi Hj. simpl. rewrite Href. unfold elem_ref2. f_equal.
    rewrite length_take.
    rewrite <- Z.add_assoc, (c_contig_offset a r c i j Hsh Hc Hi Hj). lia.
Qed.

Lemma peek_patch_rows h b cells o (val : nat -> nat -> scalar) r c i j :
  h !! b = Some (Buffer (patch cells o (rows_of val r c))) ->
  (o + r * c <= length cells)%nat ->
  (i < r)%nat -> (j < c)%nat ->
  peek h {| p_block := b; p_off := Z.of_nat (o + (i * c + j)) |} = Some (val i j).
Proof.
  intros Hb Ho Hi Hj. unfold patch in Hb.
  replace o with (length (take o cells)) at 1 by (rewrite length_take; lia).
  eapply peek_segment; [exact Hb|].
  unfold rows_of. by rewrite lookup_rows.
Qed.

(** After such a fill, reading element [(i, j)] through the descriptor
    gives [val i j]. *)
Lemma peek_filled a s s' cells (ref : nat -> nat -> ptr) (val : nat -> nat -> scalar) r c i j :
  shape a = [r; c] ->
  is_contiguous a RowMajor = true ->
  0 <= p_off (data a) ->
  (Z.to_nat (p_off (data a)) + r * c <= length cells)%nat ->
  s' = written (p_block (data a))
               (patch cells (Z.to_nat (p_off (data a))) (rows_of val r c))
               (rows_of ref r c) s ->
  (i < r)%nat -> (j < c)%nat ->
  peek (heap s') (elem_ref2 a i j) = Some (val i j).
Proof.
  intros Hsh Hc Hoff Ho -> Hi Hj.
  unfold elem_ref2.
  rewrite <- Z.add_assoc, (c_contig_offset a r c i j Hsh Hc Hi Hj).
  replace (p_off (data a) + Z.of_nat (i * c + j))
    with (Z.of_nat (Z.to_nat (p_off (data a)) + (i * c + j))) by lia.
  eapply peek_patch_rows; [apply heap_written|done..].
Qed.

Lemma shape_2d a : ndim a = 2%nat -> shape a = [shape_at a 0; shape_at a 1].
Proof.
  unfold ndim, shape_at. destruct (shape a) as [|r [|c [|? ?]]]; simpl; by try discriminate.
Qed.

Lemma valid_array_written s a cells vs ps :
  heap s !! p_block (data a) = Some (Buffer cells) ->
  (Z.to_nat (p_off (data a)) + length vs <= length cells)%nat ->
  valid_array s a = true ->
  valid_array (written (p_block (data a)) (patch cells (Z.to_nat (p_off (data a))) vs) ps s) a
  = true.
Proof.
  intros Hb Hlen Hv. unfold valid_array in *.
  rewrite heap_written, length_patch by done. by rewrite Hb in Hv.
Qed.

(** ** The specializer *)

(** What one run of the specializer on a valid C-contiguous array returns
    and leaves behind. *)
Lemma fill_array_specialized_run arr s :
  is_contiguous arr RowMajor = true ->
  valid_array s arr = true ->
  exists s',
    valid_array s' arr = true /\
    fill_array_specialized arr s =
      (Ok (if bool_decide (dtype arr = Float32) && (ndim arr =? 2)%nat
           then "Used specialized 2D float view"%string
           else if bool_decide (dtype arr = Int32) && (ndim arr =? 2)%nat
           then "Used specialized 2D int32 view"%string
           else "Unsupported array type or dimension"%string), s') /\
    (dtype arr = Float32 -> ndim arr = 2%nat ->
     forall i j, (i < shape_at arr 0)%nat -> (j < shape_at arr 1)%nat ->
       peek (heap s') (elem_ref2 arr i j) = Some (float_pattern i j)) /\
    (dtype arr = Int32 -> ndim arr = 2%nat ->
     forall i j, (i < shape_at arr 0)%nat -> (j < shape_at arr 1)%nat ->
       peek (heap s') (elem_ref2 arr i j) = Some (int32_pattern i j)) /\
    (ndim arr <> 2%nat \/ (dtype arr <> Float32 /\ dtype arr <> Int32) -> s' = s).
Proof.
  intros Hc Hv. unfold fill_array_specialized.
  destruct (ndim arr =? 2)%nat eqn:Hnd.
  - apply Nat.eqb_eq in Hnd. pose proof (shape_2d arr Hnd) as Hsh.
    destruct (valid_array_inv _ _ Hv) as (cells0 & _ & Hoff & _ & _).
    destruct (bool_decide (dtype arr = Float32)) eqn:Hf; simpl.
    + apply bool_decide_eq_true in Hf.
      destruct (fill_rows_contig (view_ref (view arr)) float_pattern arr s _ _ Hsh Hc Hv)
        as (cells & Hb & Hlen & Hfit & Hrun); [done|].
      exists (written (p_block (data arr))
                (patch cells (Z.to_nat (p_off (data arr)))
                   (rows_of float_pattern (shape_at arr 0) (shape_at arr 1)))
                (rows_of (view_ref (view arr)) (shape_at arr 0) (shape_at arr 1)) s).
      split; [|split; [|split; [|split]]].
      * apply (valid_array_written s arr cells (rows_of float_pattern _ _) _ Hb); [|done].
        unfold rows_of. by rewrite length_rows.
      * unfold bind. unfold float_pattern in Hrun. cbn [view_shape view v_shape fst snd].
        rewrite Hrun. reflexivity.
      * intros _ _ i j Hi Hj. eapply (peek_filled arr s); eauto.
      * intros Hi. rewrite Hf in Hi. discriminate.
      * intros [?|[? _]]; congruence.
    + apply bool_decide_eq_false in Hf.
      destruct (bool_decide (dtype arr = Int32)) eqn:Hi32; simpl.
      * apply bool_decide_eq_true in Hi32.
        destruct (fill_rows_contig (view_ref (view arr)) int32_pattern arr s _ _ Hsh Hc Hv)
          as (cells & Hb & Hlen & Hfit & Hrun); [done|].
        exists (written (p_block (data arr))
                  (patch cells (Z.to_nat (p_off (data arr)))
                     (rows_of int32_pattern (shape_at arr 0) (shape_at arr 1)))
                  (rows_of (view_ref (view arr)) (shape_at arr 0) (shape_at arr 1)) s).
        split; [|split; [|split; [|split]]].
        -- apply (valid_array_written s arr cells (rows_of int32_pattern _ _) _ Hb); [|done].
           unfold rows_of. by rewrite length_rows.
        -- unfold bind. unfold int32_pattern in Hrun. cbn [view_shape view v_shape fst snd].
           rewrite Hrun. reflexivity.
        -- intros ?. congruence.
        -- intros _ _ i j Hi Hj. eapply (peek_filled arr s); eauto.
        -- intros [?|[_ ?]]; congruence.
      * exists s. split; [done|]. split; [done|].
        apply bool_decide_eq_false in Hi32.
        split; [congruence|]. split; [congruence|]. done.
  - apply Nat.eqb_neq in Hnd. rewrite !andb_false_r.
    exists s. split; [done|]. split; [done|].
    split; [congruence|]. split; [congruence|]. done.
Qed.

(** ** C1: dispatch of the specializer *)

(** C1. On a valid C-contiguous cpu array the specializer returns by a
    first-match scan over (dtype, ndim): the float message for float32 and
    ndim 2, otherwise the int32 message for int32 and ndim 2, otherwise the
    unsupported message, and in that last case it leaves the state alone. *)
Theorem fill_array_specialized_dispatch arr s :
  device arr = Cpu ->
  is_contiguous arr RowMajor = true ->
  valid_array s arr = true ->
  (dtype arr = Float32 /\ ndim arr = 2%nat ->
     fst (fill_array_specialized arr s) = Ok "Used specialized 2D float view"%string) /\
  (~ (dtype arr = Float32 /\ ndim arr = 2%nat) ->
   dtype arr = Int32 /\ ndim arr = 2%nat ->
     fst (fill_array_specialized arr s) = Ok "Used specialized 2D int32 view"%string) /\
  (~ (dtype arr = Float32 /\ ndim arr = 2%nat) ->
   ~ (dtype arr = Int32 /\ ndim arr = 2%nat) ->
     fill_array_specialized arr s = (Ok "Unsupported array type or dimension"%string, s)).
Proof.
  intros _ Hc Hv.
  destruct (fill_array_specialized_run arr s Hc Hv) as (s' & _ & Hrun & _ & _ & Hsame).
  rewrite Hrun. simpl.
  split; [|split].
  - intros [Hd Hn]. rewrite Hd, Hn. reflexivity.
  - intros Hnf [Hd Hn]. rewrite Hd, Hn. reflexivity.
  - intros Hnf Hni.
    assert (Hs : s' = s).
    { apply Hsame. destruct (decide (ndim arr = 2%nat)); [right|left]; tauto. }
    subst s'. f_equal. f_equal.
    destruct (decide (ndim arr = 2%nat)) as [Hn|Hn].
    + rewrite (bool_decide_eq_false_2 (dtype arr = Float32)) by tauto.
      rewrite (bool_decide_eq_false_2 (dtype arr = Int32)) by tauto.
      reflexivity.
    + apply Nat.eqb_neq in Hn. rewrite Hn. by rewrite !andb_false_r.
Qed.

Lemma fill_array_specialized_dispatch_witness :
  fst (fill_array_specialized (sample_array Float32 [2; 3]%nat) (sample_state 6))
    = Ok "Used specialized 2D float view"%string /\
  fst (fill_array_specialized (sample_array Int32 [2; 3]%nat) (sample_state 6))
    = Ok "Used specialized 2D int32 view"%string /\
  fill_array_specialized (sample_array Float64 [1; 2; 3]%nat) (sample_state 6)
    = (Ok "Unsupported array type or dimension"%string, sample_state 6).
Proof.
  split; [|split].
  - apply (fill_array_specialized_dispatch (sample_array Float32 [2; 3]%nat) (sample_state 6));
      [reflexivity | reflexivity | reflexivity | split; reflexivity].
  - apply (fill_array_specialized_dispatch (sample_array Int32 [2; 3]%nat) (sample_state 6));
      [reflexivity | reflexivity | reflexivity | | split; reflexivity].
    intros [H _]; discriminate H.
  - apply (fill_array_specialized_dispatch (sample_array Float64 [1; 2; 3]%nat) (sample_state 6));
      [reflexivity | reflexivity | reflexivity | |]; intros [H _]; discriminate H.
Defined.

(** ** C2: the patterns written by the specialised views *)

Lemma contents2_2x2 h a :
  shape a = [2; 2]%nat ->
  contents2 h a =
    [[peek h (elem_ref2 a 0 0); peek h (elem_ref2 a 0 1)];
     [peek h (elem_ref2 a 1 0); peek h (elem_ref2 a 1 1)]].
Proof. intros Hsh. unfold contents2, shape_at. rewrite Hsh. reflexivity. Qed.

(** C2, as the code has it. On a valid C-contiguous 2x2 array the float
    view is filled with [i*j + 0.5], which gives [[0.5, 0.5], [0.5, 1.5]],
    and the int32 view with [i + j], which gives [[0, 1], [1, 2]]. *)
Theorem fill_array_specialized_2x2 arr s :
  shape arr = [2; 2]%nat ->
  is_contiguous arr RowMajor = true ->
  valid_array s arr = true ->
  (dtype arr = Float32 ->
   exists s',
     fill_array_specialized arr s = (Ok "Used specialized 2D float view"%string, s') /\
     contents2 (heap s') arr =
       [[Some (F32 Float32.half); Some (F32 Float32.half)];
        [Some (F32 Float32.half);
         Some (F32 (Float32.add (Float32.of_Z 1) Float32.half))]]) /\
  (dtype arr = Int32 ->
   exists s',
     fill_array_specialized arr s = (Ok "Used specialized 2D int32 view"%string, s') /\
     contents2 (heap s') arr =
       [[Some (I32 0); Some (I32 1)];
        [Some (I32 1); Some (I32 2)]]).
Proof.
  intros Hsh Hc Hv.
  assert (Hn : ndim arr = 2%nat) by (unfold ndim; by rewrite Hsh).
  assert (H0 : shape_at arr 0 = 2%nat) by (unfold shape_at; by rewrite Hsh).
  assert (H1 : shape_at arr 1 = 2%nat) by (unfold shape_at; by rewrite Hsh).
  destruct (fill_array_specialized_run arr s Hc Hv) as (s' & _ & Hrun & Hf & Hi & _).
  rewrite Hn in Hrun. rewrite H0, H1 in Hf, Hi.
  split; intros Hd; exists s'; rewrite Hd in Hrun; (split; [exact Hrun|]);
    rewrite (contents2_2x2 _ _ Hsh).
  - rewrite !(Hf Hd Hn) by lia. reflexivity.
  - rewrite !(Hi Hd Hn) by lia. reflexivity.
Qed.

Lemma fill_array_specialized_2x2_witness :
  (exists s',
     fill_array_specialized (sample_array Float32 [2; 2]%nat) (sample_state 4)
       = (Ok "Used specialized 2D float view"%string, s') /\
     contents2 (heap s') (sample_array Float32 [2; 2]%nat) =
       [[Some (F32 Float32.half); Some (F32 Float32.half)];
        [Some (F32 Float32.half);
         Some (F32 (Float32.add (Float32.of_Z 1) Float32.half))]]) /\
  (exists s',
     fill_array_specialized (sample_array Int32 [2; 2]%nat) (sample_state 4)
       = (Ok "Used specialized 2D int32 view"%string, s') /\
     contents2 (heap s') (sample_array Int32 [2; 2]%nat) =
       [[Some (I32 0); Some (I32 1)];
        [Some (I32 1); Some (I32 2)]]).
Proof.
  split.
  - apply (fill_array_specialized_2x2 (sample_array Float32 [2; 2]%nat) (sample_state 4));
      reflexivity.
  - apply (fill_array_specialized_2x2 (sample_array Int32 [2; 2]%nat) (sample_state 4));
      reflexivity.
Defined.

(** The float view does not hold [[0, 0], [0, 2]] after the fill: its
    entries are 0.5, 0.5, 0.5 and 1.5, none of which is an integer. *)
Lemma fill_array_specialized_2x2_not_product :
  let arr := sample_array Float32 [2; 2]%nat in
  let s' := snd (fill_array_specialized arr (sample_state 4)) in
  contents2 (heap s') arr <>
    [[Some (F32 (Float32.of_Z 0)); Some (F32 (Float32.of_Z 0))];
     [Some (F32 (Float32.of_Z 0)); Some (F32 (Float32.of_Z 2))]] /\
  map (map (fun c => match c with Some (F32 x) => Float32.to_Z x | _ => None end))
      (contents2 (heap s') arr)
  = [[None; None]; [None; None]].
Proof.
  split.
  - vm_compute. discriminate.
  - vm_compute. reflexivity.
Qed.

(** ** C8: the dispatch depends on dtype and ndim only *)

(** C8. Two valid C-contiguous arrays that agree on dtype and ndim are
    dispatched to the same variant, whatever their extents, contents and
    surrounding state; and a second run on the state the first one left
    returns the same variant as the first. *)
Theorem fill_array_specialized_deterministic arr1 arr2 s1 s2 :
  is_contiguous arr1 RowMajor = true -> valid_array s1 arr1 = true ->
  is_contiguous arr2 RowMajor = true -> valid_array s2 arr2 = true ->
  dtype arr1 = dtype arr2 ->
  ndim arr1 = ndim arr2 ->
  fst (fill_array_specialized arr1 s1) = fst (fill_array_specialized arr2 s2) /\
  fst (fill_array_specialized arr1 (snd (fill_array_specialized arr1 s1)))
    = fst (fill_array_specialized arr1 s1).
Proof.
  intros Hc1 Hv1 Hc2 Hv2 Hd Hn.
  destruct (fill_array_specialized_run arr1 s1 Hc1 Hv1) as (s1' & Hv1' & Hrun1 & _).
  destruct (fill_array_specialized_run arr2 s2 Hc2 Hv2) as (s2' & _ & Hrun2 & _).
  destruct (fill_array_specialized_run arr1 s1' Hc1 Hv1') as (s1'' & _ & Hrun1' & _).
  rewrite Hrun1, Hrun2. simpl. rewrite Hrun1'. simpl.
  by rewrite Hd, Hn.
Qed.

Lemma fill_array_specialized_deterministic_witness :
  fst (fill_array_specialized (sample_array Int32 [2; 3]%nat) (sample_state 6))
    = fst (fill_array_specialized (sample_array Int32 [4; 1]%nat) (sample_state 9)) /\
  fst (fill_array_specialized (sample_array Int32 [2; 3]%nat)
         (snd (fill_array_specialized (sample_array Int32 [2; 3]%nat) (sample_state 6))))
    = fst (fill_array_specialized (sample_array Int32 [2; 3]%nat) (sample_state 6)).
Proof.
  apply (fill_array_specialized_deterministic
           (sample_array Int32 [2; 3]%nat) (sample_array Int32 [4; 1]%nat)
           (sample_state 6) (sample_state 9)); reflexivity.
Defined.

(** ** C9: view-based and direct fills agree *)

(** C9. On a valid two-dimensional C-contiguous cpu float32 array both
    fills succeed, end in the same state, and leave [float(i*j)] at every
    position [(i, j)]. *)
Theorem fill_array_optimized_regular_agree arr s :
  dtype arr = Float32 ->
  device arr = Cpu ->
  ndim arr = 2%nat ->
  is_contiguous arr RowMajor = true ->
  valid_array s arr = true ->
  exists s',
    fill_array_optimized arr s = (Ok tt, s') /\
    fill_array_regular arr s = (Ok tt, s') /\
    forall i j, (i < shape_at arr 0)%nat -> (j < shape_at arr 1)%nat ->
      peek (heap s') (elem_ref2 arr i j)
      = Some (F32 (Float32.of_Z (Z.of_nat i * Z.of_nat j))).
Proof.
  intros _ _ Hn Hc Hv. pose proof (shape_2d arr Hn) as Hsh.
  destruct (valid_array_inv _ _ Hv) as (cells0 & _ & Hoff & _ & _).
  set (val := fun i j : nat => F32 (Float32.of_Z (wrap_size_t (Z.of_nat i * Z.of_nat j)))).
  destruct (fill_rows_contig (elem_ref2 arr) val arr s _ _ Hsh Hc Hv)
    as (cells & Hb & Hlen & Hfit & Hrun); [done|].
  eexists. split; [exact Hrun|]. split; [exact Hrun|].
  intros i j Hi Hj.
  rewrite (peek_filled arr s _ cells (elem_ref2 arr) val _ _ i j Hsh Hc Hoff Hlen eq_refl Hi Hj).
  unfold val, wrap_size_t. rewrite Z.mod_small; [done|].
  split; [lia|]. nia.
Qed.

Lemma fill_array_optimized_regular_agree_witness :
  exists s',
    fill_array_optimized (sample_array Float32 [2; 3]%nat) (sample_state 6) = (Ok tt, s') /\
    fill_array_regular (sample_array Float32 [2; 3]%nat) (sample_state 6) = (Ok tt, s') /\
    forall i j, (i < 2)%nat -> (j < 3)%nat ->
      peek (heap s') (elem_ref2 (sample_array Float32 [2; 3]%nat) i j)
      = Some (F32 (Float32.of_Z (Z.of_nat i * Z.of_nat j))).
Proof.
  apply (fill_array_optimized_regular_agree (sample_array Float32 [2; 3]%nat) (sample_state 6));
    reflexivity.
Defined.

(** ** C6: zero-extent arrays *)

Lemma for_range_idle (body : nat -> M unit) s n :
  forall lo, (forall i, body i s = (Ok tt, s)) -> for_range lo n body s = (Ok tt, s).
Proof.
  induction n as [|n IH]; intros lo Hbody; [done|].
  cbn [for_range]. unfold bind. rewrite Hbody. by apply IH.
Qed.

Lemma numel_zero sh : In 0%nat sh -> numel sh = 0%nat.
Proof.
  induction sh as [|n sh IH]; simpl; [done|].
  intros [->|Hin]; [done|]. rewrite IH by done. lia.
Qed.

(** A two-level loop over a shape with a zero extent runs no body. *)
Lemma for_upto_zero_extent (body : nat -> nat -> M unit) r c s :
  (r = 0 \/ c = 0)%nat ->
  for_upto r (fun i => for_upto c (body i)) s = (Ok tt, s).
Proof.
  intros [->| ->]; [done|].
  unfold for_upto. by apply for_range_idle.
Qed.

(** C6. A descriptor with a zero extent on some axis has zero elements and
    is contiguous under both orders; every routine that iterates over it
    returns normally in the very state it started from, so no element was
    read or written. Nothing is assumed about the data pointer. *)
Theorem zero_extent_no_access arr s :
  In 0%nat (shape arr) ->
  numel (shape arr) = 0%nat /\
  is_contiguous arr RowMajor = true /\
  is_contiguous arr ColMajor = true /\
  (ndim arr = 2%nat ->
     fill_array_optimized arr s = (Ok tt, s) /\
     fill_array_regular arr s = (Ok tt, s) /\
     map_matrix arr s = (Ok tt, s)) /\
  (exists msg, fill_array_specialized arr s = (Ok msg, s)) /\
  (ndim arr = 1%nat -> map_vector arr s = (Ok tt, s)) /\
  (ndim arr = 3%nat -> shape_at arr 2 = 3%nat -> process_rgb_image arr s = (Ok tt, s)).
Proof.
  intros Hin. pose proof (numel_zero _ Hin) as Hz.
  assert (H2 : ndim arr = 2%nat -> (shape_at arr 0 = 0 \/ shape_at arr 1 = 0)%nat).
  { intros Hn. rewrite (shape_2d arr Hn) in Hin. simpl in Hin. lia. }
  split; [done|].
  split; [unfold is_contiguous; by rewrite Hz|].
  split; [unfold is_contiguous; by rewrite Hz|].
  split; [|split; [|split]].
  - intros Hn. specialize (H2 Hn).
    split; [|split].
    + by apply for_upto_zero_extent.
    + by apply for_upto_zero_extent.
    + unfold map_matrix, scale_in_place. rewrite Hn. simpl.
      replace (shape_at arr 0 * shape_at arr 1)%nat with 0%nat by lia. done.
  - unfold fill_array_specialized.
    destruct (ndim arr =? 2)%nat eqn:Hn.
    + apply Nat.eqb_eq in Hn. specialize (H2 Hn).
      destruct (bool_decide (dtype arr = Float32)); simpl;
        [|destruct (bool_decide (dtype arr = Int32)); simpl].
      * eexists. unfold bind. by rewrite for_upto_zero_extent.
      * eexists. unfold bind. by rewrite for_upto_zero_extent.
      * by eexists.
    + rewrite !andb_false_r. by eexists.
  - intros Hn. unfold map_vector, scale_in_place. rewrite Hn. simpl.
    replace (shape_at arr 0) with 0%nat; [done|].
    unfold ndim, shape_at in *.
    destruct (shape arr) as [|n [|? ?]]; try discriminate. simpl in *. lia.
  - intros Hn H3. unfold process_rgb_image. apply for_upto_zero_extent.
    unfold ndim, shape_at in *.
    destruct (shape arr) as [|r [|c [|d [|? ?]]]]; try discriminate.
    simpl in *. lia.
Qed.

Lemma zero_extent_no_access_witness :
  let arr := {| data := {| p_block := 7; p_off := 0 |}; dtype := Float32; device := Cpu;
                shape := [0; 5]%nat; strides := [5; 1]; owner := None |} in
  let s := sample_state 0 in
  numel (shape arr) = 0%nat /\
  is_contiguous arr RowMajor = true /\
  is_contiguous arr ColMajor = true /\
  (ndim arr = 2%nat ->
     fill_array_optimized arr s = (Ok tt, s) /\
     fill_array_regular arr s = (Ok tt, s) /\
     map_matrix arr s = (Ok tt, s)) /\
  (exists msg, fill_array_specialized arr s = (Ok msg, s)) /\
  (ndim arr = 1%nat -> map_vector arr s = (Ok tt, s)) /\
  (ndim arr = 3%nat -> shape_at arr 2 = 3%nat -> process_rgb_image arr s = (Ok tt, s)).
Proof.
  intros arr s. apply (zero_extent_no_access arr s). simpl. left. reflexivity.
Defined.

(** Every successful access is recorded, so a run that ends in its initial
    state has touched no element. *)
Lemma store_recorded p v s s' :
  store p v s = (Ok tt, s') -> events s' = events s ++ [EvStore p].
Proof.
  unfold store. destruct (resolve (heap s) p) as [[cells i]|]; [|discriminate].
  intros H. by inversion H.
Qed.

Lemma load_recorded p v s s' :
  load p s = (Ok v, s') -> events s' = events s ++ [EvLoad p].
Proof.
  unfold load. destruct (resolve (heap s) p) as [[cells i]|]; [|discriminate].
  destruct (cells !! i); [|discriminate].
  intros H. by inversion H.
Qed.

(** ** C3: the release callback runs exactly once *)

Lemma releases_log t e s :
  Token.releases t (log e s)
  = (Token.releases t s + if Token.is_release_of t e then 1 else 0)%nat.
Proof.
  unfold Token.releases, log. simpl.
  rewrite List.filter_app, length_app. simpl.
  by destruct (Token.is_release_of t e).
Qed.

Lemma drop_last t ctx rel s :
  tokens s !! t = Some (Live ctx rel 1) ->
  Token.drop t s =
    let s' := set_tokens (<[t := Invalid]> (tokens s)) (log (EvRelease t ctx) s) in
    match rel ctx (heap s) with
    | Ok h' => (Ok tt, set_heap h' s')
    | Err e => (Err e, s')
    end.
Proof. intros H. unfold Token.drop. by rewrite H. Qed.

Lemma drop_shared t ctx rel rc s :
  tokens s !! t = Some (Live ctx rel (S (S rc))) ->
  Token.drop t s = (Ok tt, set_tokens (<[t := Live ctx rel (S rc)]> (tokens s)) s).
Proof. intros H. unfold Token.drop. by rewrite H. Qed.

Lemma drop_invalid t s :
  tokens s !! t = Some Invalid ->
  Token.drop t s = (Err (ErrLifetime DoubleRelease), s).
Proof. intros H. unfold Token.drop. by rewrite H. Qed.

Lemma acquire_live t ctx rel rc s :
  tokens s !! t = Some (Live ctx rel rc) ->
  Token.acquire t s = (Ok t, set_tokens (<[t := Live ctx rel (S rc)]> (tokens s)) s).
Proof. intros H. unfold Token.acquire. by rewrite H. Qed.

Lemma acquire_invalid t s :
  tokens s !! t = Some Invalid ->
  Token.acquire t s = (Err (ErrLifetime UseAfterRelease), s).
Proof. intros H. unfold Token.acquire. by rewrite H. Qed.

(** Operations on tokens leave the entries of the other tokens alone and
    run no callback of theirs. *)
Lemma acquire_other t t' s :
  t' <> t ->
  tokens (snd (Token.acquire t' s)) !! t = tokens s !! t /\
  Token.releases t (snd (Token.acquire t' s)) = Token.releases t s.
Proof.
  intros Hne. unfold Token.acquire.
  destruct (tokens s !! t') as [[c r n|]|]; cbn [snd]; try done.
  cbn [tokens set_tokens]. by rewrite lookup_insert_ne.
Qed.

Lemma drop_other t t' s :
  t' <> t ->
  tokens (snd (Token.drop t' s)) !! t = tokens s !! t /\
  Token.releases t (snd (Token.drop t' s)) = Token.releases t s.
Proof.
  intros Hne. unfold Token.drop.
  destruct (tokens s !! t') as [[c r n|]|]; cbn [snd]; try done.
  assert (Hlog : Token.releases t (log (EvRelease t' c) s) = Token.releases t s).
  { rewrite releases_log. cbn [Token.is_release_of].
    replace (t' =? t)%nat with false by (symmetry; by apply Nat.eqb_neq). lia. }
  destruct (n - 1)%nat as [|m].
  - destruct (r c (heap s)) as [h'|e]; cbn [snd tokens set_tokens set_heap];
      (split; [by rewrite lookup_insert_ne|exact Hlog]).
  - cbn [snd tokens set_tokens]. by rewrite lookup_insert_ne.
Qed.

(** One operation keeps the refcount in step with the holders. *)
Lemma held_by_step t ctx rel n op s :
  held_by t ctx rel n s ->
  held_by t ctx rel (holders t [op] n) (run_op op s).
Proof.
  intros [Htok Hrel]. destruct op as [t'|t']; cbn [holders run_op].
  - destruct (decide (t' = t)) as [->|Hne].
    + rewrite Nat.eqb_refl. destruct n as [|n]; cbn [andb Nat.ltb Nat.leb].
      * rewrite (acquire_invalid t s Htok). by split.
      * rewrite (acquire_live t ctx rel (S n) s Htok). split; [|exact Hrel].
        cbn [snd tokens set_tokens]. apply lookup_insert_eq.
    + replace (t' =? t)%nat with false by (symmetry; by apply Nat.eqb_neq).
      cbn [andb]. destruct (acquire_other t t' s Hne) as [H1 H2].
      unfold held_by. by rewrite H1, H2.
  - destruct (decide (t' = t)) as [->|Hne].
    + rewrite Nat.eqb_refl. destruct n as [|[|n]]; cbn [Nat.sub].
      * rewrite (drop_invalid t s Htok). by split.
      * rewrite (drop_last t ctx rel s Htok). cbv zeta.
        assert (Hone : Token.releases t (log (EvRelease t ctx) s) = 1%nat).
        { rewrite releases_log, Hrel. cbn [Token.is_release_of]. by rewrite Nat.eqb_refl. }
        destruct (rel ctx (heap s)) as [h'|e]; cbn [snd];
          (split; [apply lookup_insert_eq|exact Hone]).
      * rewrite (drop_shared t ctx rel n s Htok). split; [|exact Hrel].
        cbn [snd tokens set_tokens]. apply lookup_insert_eq.
    + replace (t' =? t)%nat with false by (symmetry; by apply Nat.eqb_neq).
      destruct (drop_other t t' s Hne) as [H1 H2].
      unfold held_by. by rewrite H1, H2.
Qed.

Lemma held_by_run_ops t ctx rel ops :
  forall n s, held_by t ctx rel n s -> held_by t ctx rel (holders t ops n) (run_ops ops s).
Proof.
  induction ops as [|op ops IH]; intros n s H; [done|].
  pose proof (held_by_step t ctx rel n op s H) as Hstep.
  destruct op as [t'|t']; cbn [holders run_ops foldl] in *; by apply IH.
Qed.

(** C3. Take a live token whose callback has not run, and let descriptors
    and views acquire and drop it, and other tokens, in any order. At every
    moment the refcount is the number of its holders: while one is left the
    token is live and the callback has not run, and once none is left the
    token is invalid and the callback has run exactly once. What a drop
    does then follows the holders. The drop of the last holder runs
    [release(context)] at once, on the heap as it is, and the token is
    invalid afterwards; a drop while others hold the token runs nothing and
    leaves the heap alone; a drop or an acquire of a token without holders
    is reported, as [DoubleRelease] or [UseAfterRelease], and changes
    nothing, so the callback does not run a second time. *)
Theorem token_release_exactly_once t ctx rel n s ops :
  tokens s !! t = Some (Live ctx rel (S n)) ->
  Token.releases t s = 0%nat ->
  let s' := run_ops ops s in
  let k := holders t ops (S n) in
  tokens s' !! t = Some (match k with O => Invalid | S _ => Live ctx rel k end) /\
  Token.releases t s' = (match k with O => 1 | S _ => 0 end)%nat /\
  match k with
  | O =>
      Token.drop t s' = (Err (ErrLifetime DoubleRelease), s') /\
      Token.acquire t s' = (Err (ErrLifetime UseAfterRelease), s')
  | S O =>
      exists s1,
        Token.drop t s'
        = (match rel ctx (heap s') with Ok _ => Ok tt | Err e => Err e end, s1) /\
        events s1 = events s' ++ [EvRelease t ctx] /\
        heap s1 = match rel ctx (heap s') with Ok h' => h' | Err _ => heap s' end /\
        tokens s1 !! t = Some Invalid /\
        Token.releases t s1 = 1%nat /\
        Token.drop t s1 = (Err (ErrLifetime DoubleRelease), s1)
  | S (S m) =>
      exists s1,
        Token.drop t s' = (Ok tt, s1) /\
        events s1 = events s' /\
        heap s1 = heap s' /\
        tokens s1 !! t = Some (Live ctx rel (S m)) /\
        Token.releases t s1 = 0%nat
  end.
Proof.
  intros Ht Hrel s' k.
  assert (H : held_by t ctx rel k s').
  { apply held_by_run_ops. by split. }
  destruct H as [Htok Hrun]. split; [exact Htok|]. split; [exact Hrun|].
  destruct k as [|[|m]].
  - split; [by apply drop_invalid|by apply acquire_invalid].
  - rewrite (drop_last t ctx rel s' Htok). cbv zeta.
    assert (Hone : Token.releases t (log (EvRelease t ctx) s') = 1%nat).
    { rewrite releases_log, Hrun. cbn [Token.is_release_of]. by rewrite Nat.eqb_refl. }
    destruct (rel ctx (heap s')) as [h'|e]; eexists;
      (split; [reflexivity|]); cbn [events heap tokens set_heap set_tokens log];
      (split; [done|]); (split; [done|]);
      (split; [apply lookup_insert_eq|]); (split; [exact Hone|]);
      apply drop_invalid, lookup_insert_eq.
  - rewrite (drop_shared t ctx rel m s' Htok). eexists. split; [reflexivity|].
    cbn [events heap tokens set_tokens]. split; [done|]. split; [done|].
    split; [apply lookup_insert_eq|exact Hrun].
Qed.

(** The sample token with one holder left after an acquire and a drop, with
    two holders after an acquire, and with none after a second drop. *)
Lemma token_release_exactly_once_witness :
  (let s' := run_ops [OpAcquire 0; OpDrop 0]%nat owned_state in
   tokens s' !! 0%nat = Some (Live 0 delete_float_array 1) /\
   Token.releases 0 s' = 0%nat /\
   exists s1,
     Token.drop 0 s'
     = (match delete_float_array 0%nat (heap s') with Ok _ => Ok tt | Err e => Err e end, s1) /\
     events s1 = events s' ++ [EvRelease 0 0] /\
     heap s1 = match delete_float_array 0%nat (heap s') with
               | Ok h' => h'
               | Err _ => heap s'
               end /\
     tokens s1 !! 0%nat = Some Invalid /\
     Token.releases 0 s1 = 1%nat /\
     Token.drop 0 s1 = (Err (ErrLifetime DoubleRelease), s1)) /\
  (let s' := run_ops [OpAcquire 0%nat] owned_state in
   tokens s' !! 0%nat = Some (Live 0 delete_float_array 2) /\
   Token.releases 0 s' = 0%nat /\
   exists s1,
     Token.drop 0 s' = (Ok tt, s1) /\
     events s1 = events s' /\
     heap s1 = heap s' /\
     tokens s1 !! 0%nat = Some (Live 0 delete_float_array 1) /\
     Token.releases 0 s1 = 0%nat) /\
  (let s' := run_ops [OpAcquire 0; OpDrop 0; OpDrop 0; OpDrop 0]%nat owned_state in
   tokens s' !! 0%nat = Some Invalid /\
   Token.releases 0 s' = 1%nat /\
   Token.drop 0 s' = (Err (ErrLifetime DoubleRelease), s') /\
   Token.acquire 0 s' = (Err (ErrLifetime UseAfterRelease), s')).
Proof.
  split; [|split].
  - apply (token_release_exactly_once 0 0 delete_float_array 0 owned_state
             [OpAcquire 0; OpDrop 0]%nat); reflexivity.
  - apply (token_release_exactly_once 0 0 delete_float_array 0 owned_state
             [OpAcquire 0%nat]); reflexivity.
  - apply (token_release_exactly_once 0 0 delete_float_array 0 owned_state
             [OpAcquire 0; OpDrop 0; OpDrop 0; OpDrop 0]%nat); reflexivity.
Defined.

(** On the sample state the callback frees the buffer: the drop succeeds
    and the heap is empty afterwards. *)
Lemma owned_state_drop :
  exists s1, Token.drop 0 owned_state = (Ok tt, s1) /\ heap s1 = ∅.
Proof. eexists. split; [vm_compute; reflexivity|]. vm_compute. reflexivity. Qed.

(** ** C7: buffer creation and hand-off *)

Lemma bind_ok {A B} (m : M A) (k : A -> M B) s a s' :
  m s = (Ok a, s') -> bind m k s = k a s'.
Proof. intros H. unfold bind. by rewrite H. Qed.

(** A loop that initialises every cell of a freshly allocated buffer. *)
Lemma for_upto_init b (val : nat -> scalar) n s x :
  heap s !! b = Some (Buffer (replicate n x)) ->
  for_upto n (fun i => store {| p_block := b; p_off := Z.of_nat i |} (val i)) s
  = (Ok tt, written b (map val (seq 0 n))
                    (map (fun i => {| p_block := b; p_off := Z.of_nat i |}) (seq 0 n)) s).
Proof.
  intros Hb. unfold for_upto.
  rewrite (for_range_store_segment b _ val n 0%nat [] (replicate n x) [] s).
  - simpl. by rewrite app_nil_r.
  - simpl. by rewrite app_nil_r.
  - apply length_replicate.
  - intros k _. reflexivity.
Qed.

(** Run the first command of a sequence, [tac] establishing its outcome. *)
Ltac run_with tac := erewrite bind_ok; [| tac].

(** The outcome of an operation on the token that was inserted last. *)
Ltac on_last_token :=
  cbn [tokens set_tokens written set_heap];
  rewrite lookup_insert_eq; cbn [Nat.sub]; reflexivity.

(** ... or its outcome following by computation. *)
Ltac run_known := erewrite bind_ok by reflexivity.

Ltac run_acquire := run_with ltac:(unfold Token.acquire; on_last_token).
Ltac run_drop := run_with ltac:(unfold Token.drop; on_last_token).
Ltac run_make_ndarray :=
  run_with ltac:(unfold make_ndarray; run_acquire; reflexivity).
Ltac run_init :=
  run_with ltac:(apply for_upto_init with (x := F32 (S754_zero false));
                 simpl; apply lookup_insert_eq).

Lemma fresh_block s : heap s !! fresh (dom (heap s)) = None.
Proof. apply not_elem_of_dom, is_fresh. Qed.

Lemma fresh_token s : tokens s !! fresh (dom (tokens s)) = None.
Proof. apply not_elem_of_dom, is_fresh. Qed.

(** The array new-expression succeeds when the request is within the
    size of an object and within what the free store provides. *)
Lemma new_float_array_run free_store n s :
  Z.of_nat n * sizeof_float <= max_object_bytes ->
  Z.of_nat n * sizeof_float <= free_store ->
  new_float_array free_store n s
  = (Ok (fresh (dom (heap s))),
     set_heap (<[fresh (dom (heap s)) := Buffer (replicate n (F32 (S754_zero false)))]>
                 (heap s)) s).
Proof.
  intros Hmax Hfree. unfold new_float_array.
  replace (max_object_bytes <? Z.of_nat n * sizeof_float) with false
    by (symmetry; apply Z.ltb_ge; lia).
  replace (free_store <? Z.of_nat n * sizeof_float) with false
    by (symmetry; apply Z.ltb_ge; lia).
  reflexivity.
Qed.

(** One run of [create_2d_array] in which the allocation succeeds, from any
    state. *)
Lemma create_2d_array_run free_store rows cols s :
  wrap_size_t (Z.of_nat rows * Z.of_nat cols) * sizeof_float <= max_object_bytes ->
  wrap_size_t (Z.of_nat rows * Z.of_nat cols) * sizeof_float <= free_store ->
  let n := Z.to_nat (wrap_size_t (Z.of_nat rows * Z.of_nat cols)) in
  let b := fresh (dom (heap s)) in
  let t := fresh (dom (tokens s)) in
  create_2d_array free_store rows cols s =
    (Ok {| data := {| p_block := b; p_off := 0 |};
           dtype := Float32;
           device := Cpu;
           shape := [rows; cols];
           strides := packed_c [rows; cols];
           owner := Some t |},
     {| heap := <[b := Buffer (map (fun i => F32 (Float32.of_Z (Z.of_nat i))) (seq 0 n))]>
                  (heap s);
        tokens := <[t := Live b delete_float_array 1]> (tokens s);
        events := events s
                  ++ map EvStore (map (fun i => {| p_block := b; p_off := Z.of_nat i |})
                                      (seq 0 n)) |}).
Proof.
  intros Hmax Hfree n b t. unfold create_2d_array. fold n.
  assert (Hn : Z.of_nat n = wrap_size_t (Z.of_nat rows * Z.of_nat cols)).
  { unfold n, wrap_size_t, size_t_modulus. apply Z2Nat.id, Z.mod_pos_bound. lia. }
  rewrite (bind_ok _ _ s b (set_heap (<[b := Buffer (replicate n (F32 (S754_zero false)))]>
                                        (heap s)) s))
    by (apply new_float_array_run; rewrite Hn; assumption).
  run_init.
  run_known.
  run_make_ndarray.
  run_drop.
  unfold ret, set_tokens, set_heap, written. cbn [heap tokens events].
  rewrite ?insert_insert_eq. reflexivity.
Qed.

(** When the allocation fails, [create_2d_array] throws what the
    new-expression throws and has done nothing: [std::bad_array_new_length]
    from 2^61 elements on, [std::bad_alloc] when the free store cannot
    provide the bytes. *)
Lemma create_2d_array_throws free_store rows cols s :
  let bytes := wrap_size_t (Z.of_nat rows * Z.of_nat cols) * sizeof_float in
  (max_object_bytes < bytes ->
   create_2d_array free_store rows cols s = (Err BadArrayNewLength, s)) /\
  (bytes <= max_object_bytes -> free_store < bytes ->
   create_2d_array free_store rows cols s = (Err BadAlloc, s)).
Proof.
  intros bytes.
  assert (Hn : Z.of_nat (Z.to_nat (wrap_size_t (Z.of_nat rows * Z.of_nat cols)))
               = wrap_size_t (Z.of_nat rows * Z.of_nat cols)).
  { unfold wrap_size_t, size_t_modulus. apply Z2Nat.id, Z.mod_pos_bound. lia. }
  split.
  - intros Hbig. unfold create_2d_array, bind, new_float_array. rewrite Hn. fold bytes.
    by replace (max_object_bytes <? bytes) with true by (symmetry; apply Z.ltb_lt; lia).
  - intros Hfit Hfull. unfold create_2d_array, bind, new_float_array. rewrite Hn. fold bytes.
    replace (max_object_bytes <? bytes) with false by (symmetry; apply Z.ltb_ge; lia).
    by replace (free_store <? bytes) with true by (symmetry; apply Z.ltb_lt; lia).
Qed.

(** A request for 2^61 floats is refused whatever the free store holds,
    and one for 2^20 floats fails when only 1 MiB is left. *)
Lemma create_2d_array_throws_examples free_store s :
  create_2d_array free_store 1 (Z.to_nat (2 ^ 61)) s = (Err BadArrayNewLength, s) /\
  create_2d_array (2 ^ 20) (Z.to_nat 1024) (Z.to_nat 1024) s = (Err BadAlloc, s).
Proof.
  split.
  - apply create_2d_array_throws. rewrite !Z2Nat.id by lia. reflexivity.
  - apply create_2d_array_throws; rewrite !Z2Nat.id by lia; [discriminate|reflexivity].
Qed.

(** Whenever [create_2d_array] returns, the array announces the extents it
    was asked for. *)
Lemma create_2d_array_shape free_store rows cols s arr s' :
  create_2d_array free_store rows cols s = (Ok arr, s') ->
  shape arr = [rows; cols].
Proof.
  intros Hrun.
  set (bytes := wrap_size_t (Z.of_nat rows * Z.of_nat cols) * sizeof_float).
  destruct (create_2d_array_throws free_store rows cols s) as [Hlen Hmem].
  destruct (Z_lt_le_dec max_object_bytes bytes) as [Hbig|Hmax].
  { rewrite (Hlen Hbig) in Hrun. discriminate. }
  destruct (Z_lt_le_dec free_store bytes) as [Hfull|Hfree].
  { rewrite (Hmem Hmax Hfull) in Hrun. discriminate. }
  rewrite (create_2d_array_run free_store rows cols s Hmax Hfree) in Hrun.
  injection Hrun as <- _. reflexivity.
Qed.

(** Requests the new-expression accepts do not wrap. *)
Lemma array_bytes_fit rows cols :
  Z.of_nat rows * Z.of_nat cols * sizeof_float <= max_object_bytes ->
  wrap_size_t (Z.of_nat rows * Z.of_nat cols) = Z.of_nat rows * Z.of_nat cols.
Proof.
  unfold sizeof_float, max_object_bytes, wrap_size_t, size_t_modulus. intros H.
  apply Z.mod_small. lia.
Qed.

(** Element [(i, j)] of the exported array. *)
Lemma create_2d_array_element free_store rows cols s i j :
  Z.of_nat rows * Z.of_nat cols * sizeof_float <= max_object_bytes ->
  Z.of_nat rows * Z.of_nat cols * sizeof_float <= free_store ->
  (i < rows)%nat -> (j < cols)%nat ->
  exists arr s',
    create_2d_array free_store rows cols s = (Ok arr, s') /\
    peek (heap s') (elem_ref2 arr i j)
    = Some (F32 (Float32.of_Z (Z.of_nat i * Z.of_nat cols + Z.of_nat j))).
Proof.
  intros Hmax Hfree Hi Hj. pose proof (array_bytes_fit rows cols Hmax) as Hfit.
  eexists _, _. split; [apply create_2d_array_run; by rewrite Hfit|].
  cbn [heap]. unfold elem_ref2, stride_at. cbn [data strides packed_c nth p_block p_off numel].
  rewrite Hfit.
  replace (0 + Z.of_nat i * Z.of_nat (cols * 1) + Z.of_nat j * Z.of_nat 1)
    with (Z.of_nat (length (@nil scalar) + (i * cols + j))) by (simpl; lia).
  eapply peek_segment.
  - rewrite lookup_insert_eq. simpl. by rewrite app_nil_r.
  - rewrite list_lookup_fmap, lookup_seq_lt by nia. simpl.
    do 3 f_equal. lia.
Qed.

(** X16. Buffer creation and hand-off when the new-expression succeeds,
    that is when [rows * cols] floats are within the size of an object and
    within what the free store provides: [create_2d_array] allocates a fresh
    buffer of exactly [rows * cols] floats and leaves every other
    allocation alone; it returns a float32 descriptor of shape
    [(rows, cols)] whose element [(i, j)] is [(float)(i * cols + j)], which
    is [i * cols + j] itself up to [2^24]; and it attaches a fresh token,
    held once, whose release frees exactly that buffer. *)
Theorem create_2d_array_exports free_store rows cols s :
  Z.of_nat rows * Z.of_nat cols * sizeof_float <= max_object_bytes ->
  Z.of_nat rows * Z.of_nat cols * sizeof_float <= free_store ->
  exists arr s' b t,
    create_2d_array free_store rows cols s = (Ok arr, s') /\
    heap s !! b = None /\
    data arr = {| p_block := b; p_off := 0 |} /\
    (exists cells, heap s' !! b = Some (Buffer cells) /\ length cells = (rows * cols)%nat) /\
    (forall b', b' <> b -> heap s' !! b' = heap s !! b') /\
    dtype arr = Float32 /\
    shape arr = [rows; cols] /\
    (forall i j, (i < rows)%nat -> (j < cols)%nat ->
       let k := Z.of_nat i * Z.of_nat cols + Z.of_nat j in
       peek (heap s') (elem_ref2 arr i j) = Some (F32 (Float32.of_Z k)) /\
       (k <= 2 ^ 24 -> Float32.to_Z (Float32.of_Z k) = Some k)) /\
    owner arr = Some t /\
    tokens s !! t = None /\
    tokens s' !! t = Some (Live b delete_float_array 1) /\
    exists s'',
      Token.drop t s' = (Ok tt, s'') /\
      heap s'' = delete b (heap s') /\
      heap s'' = heap s /\
      events s'' = events s' ++ [EvRelease t b].
Proof.
  intros Hmax Hfree. pose proof (array_bytes_fit rows cols Hmax) as Hfit.
  assert (Hrun := create_2d_array_run free_store rows cols s).
  rewrite Hfit in Hrun. specialize (Hrun Hmax Hfree). cbv zeta in Hrun.
  set (b := fresh (dom (heap s))) in *. set (t := fresh (dom (tokens s))) in *.
  set (arr := {| data := {| p_block := b; p_off := 0 |}; dtype := Float32; device := Cpu;
                 shape := [rows; cols]; strides := packed_c [rows; cols];
                 owner := Some t |}) in *.
  match type of Hrun with _ = (_, ?st) => set (s' := st) in * end.
  assert (Hn : Z.to_nat (Z.of_nat rows * Z.of_nat cols) = (rows * cols)%nat) by lia.
  assert (Hb' : heap s' !! b = Some (Buffer (map (fun i : nat => F32 (Float32.of_Z (Z.of_nat i)))
                                                 (seq 0 (rows * cols))))).
  { unfold s'. cbn [heap]. rewrite lookup_insert_eq. by rewrite Hn. }
  assert (Ht' : tokens s' !! t = Some (Live b delete_float_array 1)).
  { unfold s'. cbn [tokens]. apply lookup_insert_eq. }
  exists arr, s', b, t.
  split; [exact Hrun|]. split; [apply fresh_block|]. split; [done|].
  split; [eexists; split; [exact Hb'|by rewrite length_map, length_seq]|].
  split; [intros b' Hne; unfold s'; cbn [heap]; by rewrite lookup_insert_ne|].
  split; [done|]. split; [done|].
  split.
  { intros i j Hi Hj k. split.
    - destruct (create_2d_array_element free_store rows cols s i j Hmax Hfree Hi Hj)
        as (arr0 & s0 & Hrun0 & Hpeek).
      rewrite Hrun in Hrun0. by inversion Hrun0; subst.
    - intros Hk. apply Float32_of_Z_exact. unfold k in *. lia. }
  split; [done|]. split; [apply fresh_token|]. split; [exact Ht'|].
  rewrite (drop_last t b delete_float_array s' Ht'). cbv zeta.
  unfold delete_float_array, free. rewrite Hb'.
  eexists. split; [reflexivity|]. cbn [heap set_heap set_tokens log events].
  split; [done|]. split; [|done].
  unfold s'. cbn [heap]. rewrite delete_insert_eq. apply delete_id, fresh_block.
Qed.

Lemma create_2d_array_exports_witness :
  exists arr s' b t,
    create_2d_array 1024 2 3 (sample_state 4) = (Ok arr, s') /\
    heap (sample_state 4) !! b = None /\
    data arr = {| p_block := b; p_off := 0 |} /\
    (exists cells, heap s' !! b = Some (Buffer cells) /\ length cells = (2 * 3)%nat) /\
    (forall b', b' <> b -> heap s' !! b' = heap (sample_state 4) !! b') /\
    dtype arr = Float32 /\
    shape arr = [2; 3]%nat /\
    (forall i j, (i < 2)%nat -> (j < 3)%nat ->
       let k := Z.of_nat i * Z.of_nat 3 + Z.of_nat j in
       peek (heap s') (elem_ref2 arr i j) = Some (F32 (Float32.of_Z k)) /\
       (k <= 2 ^ 24 -> Float32.to_Z (Float32.of_Z k) = Some k)) /\
    owner arr = Some t /\
    tokens (sample_state 4) !! t = None /\
    tokens s' !! t = Some (Live b delete_float_array 1) /\
    exists s'',
      Token.drop t s' = (Ok tt, s'') /\
      heap s'' = delete b (heap s') /\
      heap s'' = heap (sample_state 4) /\
      events s'' = events s' ++ [EvRelease t b].
Proof.
  apply (create_2d_array_exports 1024 2 3 (sample_state 4));
    unfold sizeof_float, max_object_bytes; lia.
Defined.

Lemma Float32_of_Z_tie : Float32.of_Z 16777217 = Float32.of_Z 16777216.
Proof. vm_compute. reflexivity. Qed.

(** C7. The exported values are not the sequence [0 .. rows*cols-1], and
    the buffer does not always hold [rows * cols] elements. In a
    1 x 16777218 array, which takes 64 MiB, the elements at columns
    16777216 and 16777217 are the same float, 16777216: [(float) i] rounds
    above [2^24]. And for 2^32 x 2^32 the product wraps to 0 in [size_t]:
    the buffer is empty while the descriptor announces 2^32 rows and
    columns. *)
Theorem create_2d_array_not_sequential free_store s :
  16777218 * sizeof_float <= free_store ->
  (exists arr s' x,
     create_2d_array free_store 1 (Z.to_nat 16777218) s = (Ok arr, s') /\
     shape arr = [1%nat; Z.to_nat 16777218] /\
     peek (heap s') (elem_ref2 arr 0 (Z.to_nat 16777216)) = Some (F32 x) /\
     peek (heap s') (elem_ref2 arr 0 (Z.to_nat 16777217)) = Some (F32 x) /\
     Float32.to_Z x = Some 16777216 /\
     Float32.to_Z x <> Some (0 * 16777218 + 16777217)) /\
  (exists arr s',
     create_2d_array free_store (Z.to_nat (2 ^ 32)) (Z.to_nat (2 ^ 32)) s = (Ok arr, s') /\
     shape arr = [Z.to_nat (2 ^ 32); Z.to_nat (2 ^ 32)] /\
     heap s' !! p_block (data arr) = Some (Buffer [])).
Proof.
  intros Hfree. split.
  - assert (Hmax : Z.of_nat 1 * Z.of_nat (Z.to_nat 16777218) * sizeof_float
                   <= max_object_bytes).
    { rewrite Z2Nat.id by lia. unfold sizeof_float, max_object_bytes. lia. }
    assert (Hfree' : Z.of_nat 1 * Z.of_nat (Z.to_nat 16777218) * sizeof_float <= free_store).
    { rewrite Z2Nat.id by lia. lia. }
    destruct (create_2d_array_element free_store 1 (Z.to_nat 16777218) s
                0 (Z.to_nat 16777216) Hmax Hfree') as (arr & s' & Hrun & Hlow); [lia|lia|].
    destruct (create_2d_array_element free_store 1 (Z.to_nat 16777218) s
                0 (Z.to_nat 16777217) Hmax Hfree') as (arr' & s'' & Hrun' & Hhigh); [lia|lia|].
    rewrite Hrun in Hrun'. injection Hrun' as <- <-.
    rewrite !Z2Nat.id in Hlow, Hhigh by lia.
    change (Z.of_nat 0 * 16777218 + 16777216) with 16777216 in Hlow.
    change (Z.of_nat 0 * 16777218 + 16777217) with 16777217 in Hhigh.
    rewrite Float32_of_Z_tie in Hhigh.
    exists arr, s', (Float32.of_Z 16777216).
    split; [exact Hrun|].
    split; [exact (create_2d_array_shape _ _ _ _ _ _ Hrun)|].
    split; [exact Hlow|]. split; [exact Hhigh|].
    rewrite <- Float32_of_Z_tie, Float32_of_Z_rounds. split; [reflexivity|discriminate].
  - assert (Hwrap : wrap_size_t (Z.of_nat (Z.to_nat (2 ^ 32)) * Z.of_nat (Z.to_nat (2 ^ 32))) = 0).
    { rewrite !Z2Nat.id by lia. reflexivity. }
    eexists _, _. split.
    { apply create_2d_array_run; rewrite Hwrap; unfold sizeof_float, max_object_bytes in *; lia. }
    split; [reflexivity|]. cbn [heap data p_block].
    rewrite lookup_insert_eq, Hwrap. reflexivity.
Qed.

Lemma create_2d_array_not_sequential_witness :
  (exists arr s' x,
     create_2d_array 67108872 1 (Z.to_nat 16777218) (sample_state 0) = (Ok arr, s') /\
     shape arr = [1%nat; Z.to_nat 16777218] /\
     peek (heap s') (elem_ref2 arr 0 (Z.to_nat 16777216)) = Some (F32 x) /\
     peek (heap s') (elem_ref2 arr 0 (Z.to_nat 16777217)) = Some (F32 x) /\
     Float32.to_Z x = Some 16777216 /\
     Float32.to_Z x <> Some (0 * 16777218 + 16777217)) /\
  (exists arr s',
     create_2d_array 67108872 (Z.to_nat (2 ^ 32)) (Z.to_nat (2 ^ 32)) (sample_state 0)
     = (Ok arr, s') /\
     shape arr = [Z.to_nat (2 ^ 32); Z.to_nat (2 ^ 32)] /\
     heap s' !! p_block (data arr) = Some (Buffer [])).
Proof.
  apply (create_2d_array_not_sequential 67108872 (sample_state 0)).
  unfold sizeof_float. lia.
Defined.

(** ** C4: two arrays sharing one owner *)

(** One run of [return_multiple_arrays], from any state: three fresh
    allocations and one fresh token, held by the two arrays. *)
Lemma return_multiple_arrays_run s :
  exists b1 b2 bs t s',
    return_multiple_arrays s =
      (Ok ({| data := {| p_block := b1; p_off := 0 |}; dtype := Float32; device := Cpu;
              shape := [5%nat]; strides := [1]; owner := Some t |},
           {| data := {| p_block := b2; p_off := 0 |}; dtype := Float32; device := Cpu;
              shape := [10%nat]; strides := [1]; owner := Some t |}), s') /\
    heap s' = <[bs := SharedArraysObj b1 b2]>
                (<[b2 := Buffer decreasing_values]>
                   (<[b1 := Buffer increasing_values]> (heap s))) /\
    tokens s' = <[t := Live bs delete_shared_arrays 2]> (tokens s) /\
    heap s !! b1 = None /\ heap s !! b2 = None /\ heap s !! bs = None /\
    b1 <> b2 /\ bs <> b1 /\ bs <> b2 /\
    tokens s !! t = None /\
    Token.releases t s' = Token.releases t s.
Proof.
  unfold return_multiple_arrays, new_vector.
  set (b1 := fresh (dom (heap s))).
  rewrite (bind_ok _ _ s b1 (set_heap (<[b1 := Buffer (replicate 5 (F32 (S754_zero false)))]>
                                         (heap s)) s)) by reflexivity.
  run_init.
  match goal with |- context [bind (alloc _) _ ?st] => set (s2 := st) end.
  set (b2 := fresh (dom (heap s2))).
  rewrite (bind_ok _ _ s2 b2 (set_heap (<[b2 := Buffer (replicate 10 (F32 (S754_zero false)))]>
                                          (heap s2)) s2)) by reflexivity.
  run_init.
  match goal with |- context [bind (alloc _) _ ?st] => set (s4 := st) end.
  set (bs := fresh (dom (heap s4))).
  rewrite (bind_ok _ _ s4 bs (set_heap (<[bs := SharedArraysObj b1 b2]> (heap s4)) s4))
    by reflexivity.
  set (t := fresh (dom (tokens s))).
  run_known.
  run_make_ndarray.
  run_make_ndarray.
  run_drop.
  assert (H1 : heap s !! b1 = None) by apply fresh_block.
  assert (H2 : heap s2 !! b2 = None) by apply fresh_block.
  assert (Hs : heap s4 !! bs = None) by apply fresh_block.
  assert (Hh2 : heap s2 = <[b1 := Buffer increasing_values]> (heap s)).
  { unfold s2, written, set_heap. cbn [heap]. by rewrite insert_insert_eq. }
  assert (Hh4 : heap s4 = <[b2 := Buffer decreasing_values]>
                            (<[b1 := Buffer increasing_values]> (heap s))).
  { unfold s4, written, set_heap. cbn [heap]. by rewrite insert_insert_eq, Hh2. }
  assert (Hne12 : b1 <> b2).
  { intros Heq. rewrite <- Heq, Hh2, lookup_insert_eq in H2. discriminate. }
  assert (Hnes2 : bs <> b2).
  { intros Heq. rewrite Heq, Hh4, lookup_insert_eq in Hs. discriminate. }
  assert (Hnes1 : bs <> b1).
  { intros Heq. rewrite Heq, Hh4, lookup_insert_ne, lookup_insert_eq in Hs by done.
    discriminate. }
  exists b1, b2, bs, t. eexists. split; [reflexivity|].
  unfold ret, set_tokens, set_heap. cbn [heap tokens events].
  split; [by rewrite Hh4|].
  split; [by rewrite !insert_insert_eq|].
  split; [done|].
  split; [rewrite Hh2, lookup_insert_ne in H2; done|].
  split; [rewrite Hh4, !lookup_insert_ne in Hs; done|].
  split; [done|]. split; [done|]. split; [done|].
  split; [apply fresh_token|].
  unfold Token.releases, s4, s2, written, set_heap. cbn [events].
  rewrite !List.filter_app, !length_app. simpl. lia.
Qed.

Lemma peek_whole_buffer h b (cells : list scalar) k v :
  h !! b = Some (Buffer cells) ->
  cells !! k = Some v ->
  peek h {| p_block := b; p_off := 0 + Z.of_nat k * 1 |} = Some v.
Proof.
  intros Hb Hk.
  replace (0 + Z.of_nat k * 1) with (Z.of_nat (length (@nil scalar) + k)) by (simpl; lia).
  eapply peek_segment; [|exact Hk]. simpl. by rewrite app_nil_r.
Qed.

Lemma peek_freed h b off : h !! b = None -> peek h {| p_block := b; p_off := off |} = None.
Proof. intros Hb. unfold peek, resolve. simpl. by rewrite Hb. Qed.

(** C4. The two arrays returned by [return_multiple_arrays] hold the same
    token. Dropping one of them runs no release and frees nothing: both
    buffers stay readable. Only the drop of the other one runs the release,
    once, and it frees the struct with both vectors. *)
Theorem return_multiple_arrays_shared_owner s :
  exists a1 a2 s' t ctx,
    return_multiple_arrays s = (Ok (a1, a2), s') /\
    owner a1 = Some t /\
    owner a2 = Some t /\
    shape a1 = [5%nat] /\
    shape a2 = [10%nat] /\
    Token.releases t s' = Token.releases t s /\
    exists s1,
      Token.drop t s' = (Ok tt, s1) /\
      events s1 = events s' /\
      heap s1 = heap s' /\
      (forall k, (k < 5)%nat ->
         peek (heap s1) (elem_ref1 a1 k) = Some (F32 (Float32.of_Z (Z.of_nat k)))) /\
      (forall k, (k < 10)%nat ->
         peek (heap s1) (elem_ref1 a2 k) = Some (F32 (Float32.of_Z (9 - Z.of_nat k)))) /\
      exists s2,
        Token.drop t s1 = (Ok tt, s2) /\
        events s2 = events s1 ++ [EvRelease t ctx] /\
        heap s2 = heap s /\
        (forall k, peek (heap s2) (elem_ref1 a1 k) = None /\
                   peek (heap s2) (elem_ref1 a2 k) = None) /\
        Token.drop t s2 = (Err (ErrLifetime DoubleRelease), s2).
Proof.
  destruct (return_multiple_arrays_run s)
    as (b1 & b2 & bs & t & s' & Hrun & Hheap & Htok & H1 & H2 & Hs & Hne12 & Hnes1 & Hnes2
        & Ht & Hrel).
  eexists _, _, s', t, bs. split; [exact Hrun|].
  cbn [owner shape]. do 4 (split; [done|]). split; [exact Hrel|].
  assert (Hb1 : heap s' !! b1 = Some (Buffer increasing_values)).
  { rewrite Hheap, !lookup_insert_ne, lookup_insert_eq by done. done. }
  assert (Hb2 : heap s' !! b2 = Some (Buffer decreasing_values)).
  { rewrite Hheap, lookup_insert_ne, lookup_insert_eq by done. done. }
  assert (Hbs : heap s' !! bs = Some (SharedArraysObj b1 b2)).
  { by rewrite Hheap, lookup_insert_eq. }
  assert (Hlive : tokens s' !! t = Some (Live bs delete_shared_arrays 2)).
  { by rewrite Htok, lookup_insert_eq. }
  rewrite (drop_shared t bs delete_shared_arrays 0 s' Hlive).
  eexists. split; [reflexivity|]. cbn [events heap set_tokens].
  split; [done|]. split; [done|].
  split; [|split].
  - intros k Hk. unfold elem_ref1, stride_at. cbn [data strides nth p_block p_off].
    eapply peek_whole_buffer; [exact Hb1|].
    unfold increasing_values. by rewrite list_lookup_fmap, lookup_seq_lt.
  - intros k Hk. unfold elem_ref1, stride_at. cbn [data strides nth p_block p_off].
    eapply peek_whole_buffer; [exact Hb2|].
    unfold decreasing_values. rewrite list_lookup_fmap, lookup_seq_lt by done. simpl.
    unfold wrap_size_t. rewrite Z.mod_small by (unfold size_t_modulus; lia).
    do 3 f_equal. lia.
  - erewrite drop_last by (cbn [tokens set_tokens]; apply lookup_insert_eq).
    cbv zeta. cbn [heap set_tokens log].
    assert (Hfree : delete_shared_arrays bs (heap s') = Ok (heap s)).
    { unfold delete_shared_arrays, free. rewrite Hbs, Hb2.
      rewrite lookup_delete_ne, Hb1 by done.
      rewrite !lookup_delete_ne, Hbs by done.
      f_equal. rewrite Hheap. apply map_eq. intros i.
      rewrite !lookup_delete, !lookup_insert.
      repeat case_decide; subst; try done; congruence. }
    rewrite Hfree.
    eexists. split; [reflexivity|]. cbn [events heap set_heap set_tokens tokens].
    split; [done|]. split; [done|].
    split.
    + intros k. split; by apply peek_freed.
    + apply drop_invalid. cbn [tokens]. apply lookup_insert_eq.
Qed.

(** ** C10: [map_vector] *)

(** The check comes first: an array that is not one-dimensional raises and
    nothing has been touched. *)
Lemma map_vector_rejects array s :
  ndim array <> 1%nat ->
  map_vector array s = (Err (RuntimeError "Expected a 1D array"), s).
Proof.
  intros Hn. unfold map_vector. apply Nat.eqb_neq in Hn. by rewrite Hn.
Qed.

Lemma scale_loop_errors (ref : nat -> ptr) c n :
  forall lo s e s',
    for_range lo n (fun k =>
      let* v := load (ref k) in
      match v with
      | F32 x => store (ref k) (F32 (Float32.mul x c))
      | _ => throw (InvalidAccess (ref k))
      end) s = (Err e, s') ->
    exists p, e = InvalidAccess p.
Proof.
  induction n as [|n IH]; intros lo s e s' Hrun; [discriminate|].
  cbn [for_range] in Hrun. unfold bind at 1 2 in Hrun. unfold load at 1 in Hrun.
  destruct (resolve (heap s) (ref lo)) as [[cells i]|]; [|inversion Hrun; eauto].
  destruct (cells !! i) as [[x|z|z]|]; try (inversion Hrun; eauto; fail).
  unfold store at 1 in Hrun.
  destruct (resolve (heap (log (EvLoad (ref lo)) s)) (ref lo)) as [[cells' i']|];
    [|inversion Hrun; eauto].
  by apply IH in Hrun.
Qed.

(** A one-dimensional array never raises the runtime error. *)
Lemma map_vector_accepts array s msg :
  ndim array = 1%nat -> fst (map_vector array s) <> Err (RuntimeError msg).
Proof.
  intros Hn. unfold map_vector. rewrite Hn. simpl.
  destruct (scale_in_place _ _ s) as [[[]|e] s'] eqn:Hrun; [done|].
  apply scale_loop_errors in Hrun as [p ->]. done.
Qed.

(** Scaling a run of consecutive floats in place. *)
Lemma scale_loop_segment b (ref : nat -> ptr) c n :
  forall lo pre xs post s,
    heap s !! b = Some (Buffer (pre ++ map F32 xs ++ post)) ->
    length xs = n ->
    (forall k, (k < n)%nat ->
       ref (lo + k)%nat = {| p_block := b; p_off := Z.of_nat (length pre + k) |}) ->
    exists s',
      for_range lo n (fun k =>
        let* v := load (ref k) in
        match v with
        | F32 x => store (ref k) (F32 (Float32.mul x c))
        | _ => throw (InvalidAccess (ref k))
        end) s = (Ok tt, s') /\
      heap s' = <[b := Buffer (pre ++ map (fun x => F32 (Float32.mul x c)) xs ++ post)]> (heap s) /\
      tokens s' = tokens s.
Proof.
  induction n as [|n IH]; intros lo pre xs post s Hb Hlen Href.
  - destruct xs; [|discriminate]. exists s. split; [done|].
    split; [|done]. simpl in *. by rewrite insert_id.
  - destruct xs as [|x xs]; [discriminate|]. simpl in Hlen, Hb.
    specialize (Href 0%nat ltac:(lia)) as Href0. rewrite !Nat.add_0_r in Href0.
    destruct (IH (S lo) (pre ++ [F32 (Float32.mul x c)]) xs post
                 (written b (pre ++ F32 (Float32.mul x c) :: map F32 xs ++ post)
                          [ref lo] (log (EvLoad (ref lo)) s)))
      as (s' & Hrun & Hheap & Htok).
    + rewrite heap_written. by rewrite <- app_assoc.
    + lia.
    + intros k Hk. rewrite length_app. simpl.
      replace (S (lo + k))%nat with (lo + S k)%nat by lia.
      rewrite Href by lia. do 2 f_equal. lia.
    + exists s'. split; [|split].
      * cbn [for_range]. unfold bind at 1 2. unfold load at 1.
        rewrite Href0. unfold resolve at 1. cbn [p_block p_off]. rewrite Hb.
        rewrite cell_index_middle.
        rewrite lookup_app_r, Nat.sub_diag by lia. cbn [lookup list_lookup].
        rewrite (store_middle b pre (F32 x) (map F32 xs ++ post) _ (log _ s)) by exact Hb.
        rewrite <- Href0. exact Hrun.
      * rewrite Hheap. unfold written. cbn [heap log]. rewrite insert_insert_eq.
        by rewrite <- app_assoc.
      * rewrite Htok. reflexivity.
Qed.

(** On a packed vector of floats inside a live buffer, [map_vector] doubles
    every element and leaves the rest of memory as it was. *)
Lemma map_vector_contiguous array s pre xs post :
  shape array = [length xs] ->
  heap s !! p_block (data array) = Some (Buffer (pre ++ map F32 xs ++ post)) ->
  p_off (data array) = Z.of_nat (length pre) ->
  exists s',
    map_vector array s = (Ok tt, s') /\
    heap s' = <[p_block (data array) :=
                  Buffer (pre ++ map (fun x => F32 (Float32.mul x Float32.two)) xs ++ post)]>
                (heap s) /\
    tokens s' = tokens s.
Proof.
  intros Hsh Hb Hoff. unfold map_vector, ndim, shape_at. rewrite Hsh. simpl.
  unfold scale_in_place, for_upto. cbn [m_size].
  apply (scale_loop_segment (p_block (data array))); [done..|].
  intros k _. unfold coeff_ref. cbn [m_data]. rewrite Hoff. f_equal. lia.
Qed.

(** C10, where the code departs from it. [map_vector] maps [shape(0)]
    consecutive floats from the data pointer and ignores the stride: on the
    view [1, 3] of every second element of [1, 2, 3, 4] it returns normally,
    the view reads [2, 3] afterwards instead of [2, 6], and the cell between
    its two elements, which is not part of the view, went from 2 to 4. *)
Theorem map_vector_ignores_stride :
  let out := map_vector strided_array strided_state in
  ndim strided_array = 1%nat /\
  fst out = Ok tt /\
  contents1 (heap strided_state) strided_array
    = [Some (F32 (Float32.of_Z 1)); Some (F32 (Float32.of_Z 3))] /\
  contents1 (heap (snd out)) strided_array
    = [Some (F32 (Float32.of_Z 2)); Some (F32 (Float32.of_Z 3))] /\
  Float32.mul (Float32.of_Z 3) Float32.two = Float32.of_Z 6 /\
  peek (heap strided_state) {| p_block := 0; p_off := 1 |} = Some (F32 (Float32.of_Z 2)) /\
  peek (heap (snd out)) {| p_block := 0; p_off := 1 |} = Some (F32 (Float32.of_Z 4)).
Proof. vm_compute. repeat split. Qed.


(** ** Matrices filled by a counter *)

Lemma to_int32_small z : - 2 ^ 31 <= z < 2 ^ 31 -> to_int32 z = z.
Proof.
  intros Hz. unfold to_int32. cbv zeta.
  destruct (Z.ltb_spec (z mod 2 ^ 32) (2 ^ 31)) as [Hlt|Hge].
  - destruct (Z_lt_le_dec z 0) as [Hneg|Hpos].
    + rewrite <- (Z.mod_add z 1 (2 ^ 32)) in Hlt by lia.
      rewrite Z.mod_small in Hlt by lia. lia.
    + apply Z.mod_small. lia.
  - destruct (Z_lt_le_dec z 0) as [Hneg|Hpos].
    + rewrite <- (Z.mod_add z 1 (2 ^ 32)) by lia.
      rewrite Z.mod_small by lia. lia.
    + rewrite Z.mod_small in Hge by lia. lia.
Qed.

Section Fills.

Variables (R C : nat) (O : order_t).

Lemma fills_cell r c o :
  coeff_index {| d_rows := R; d_cols := C; d_order := O; d_coeffs := [] |} r c = o ->
  fills R C O (store_next_count r c) o 1.
Proof.
  intros Hix pre mid post count Hpre Hmid Hc Hfit.
  destruct mid as [|x [|? ?]]; try discriminate.
  unfold store_next_count, set_coeff. cbn [fst snd d_rows d_cols d_order d_coeffs].
  rewrite to_int32_small by lia.
  replace (coeff_index _ r c) with (length pre + 0)%nat.
  - rewrite insert_app_r. simpl. do 2 f_equal. do 3 f_equal. lia.
  - rewrite Nat.add_0_r, Hpre, <- Hix. reflexivity.
Qed.

Lemma fills_loop (body : nat -> dense * Z -> dense * Z) c n :
  forall lo o,
    (forall i, (i < n)%nat -> fills R C O (body (lo + i)%nat) (o + i * c) c) ->
    fills R C O (iterate lo n body) o (n * c).
Proof.
  induction n as [|n IH]; intros lo o Hbody pre mid post count Hpre Hmid Hc Hfit.
  - destruct mid; [|discriminate]. simpl. by rewrite Z.add_0_r.
  - cbn [iterate].
    rewrite <- (take_drop c mid), <- app_assoc.
    assert (Htake : length (take c mid) = c) by (rewrite length_take; simpl in Hmid; lia).
    assert (Hdrop : length (skipn c mid) = (n * c)%nat)
      by (rewrite length_skipn; simpl in Hmid; lia).
    pose proof (Hbody 0%nat ltac:(lia)) as H0.
    rewrite Nat.add_0_r in H0. simpl in H0. rewrite Nat.add_0_r in H0.
    rewrite (H0 pre (take c mid) (skipn c mid ++ post) count Hpre Htake Hc) by nia.
    replace (pre ++ map (fun k : nat => Float32.of_Z (count + 1 + Z.of_nat k)) (seq 0 c)
                 ++ skipn c mid ++ post)
      with ((pre ++ map (fun k : nat => Float32.of_Z (count + 1 + Z.of_nat k)) (seq 0 c))
              ++ skipn c mid ++ post) by (by rewrite <- app_assoc).
    rewrite (IH (S lo) (o + c)%nat).
    + f_equal; [|lia]. f_equal. rewrite <- !app_assoc. f_equal.
      rewrite app_assoc. f_equal.
      replace (S n * c)%nat with (c + n * c)%nat by lia.
      rewrite seq_app, map_app. f_equal. simpl.
      assert (Hs : seq c (n * c) = Nat.add c <$> seq 0 (n * c))
        by (rewrite fmap_add_seq; f_equal; lia).
      rewrite Hs, <- list_fmap_compose.
      apply list_fmap_ext. intros _ k _. simpl. f_equal. lia.
    + intros i Hi. replace (S lo + i)%nat with (lo + S i)%nat by lia.
      replace (o + c + i * c)%nat with (o + S i * c)%nat by lia.
      apply Hbody. lia.
    + rewrite length_app, length_map, length_seq. lia.
    + done.
    + lia.
    + nia.
Qed.

End Fills.

Lemma counting_lookup n k :
  (k < n)%nat -> counting n !! k = Some (Float32.of_Z (Z.of_nat k + 1)).
Proof.
  intros Hk. unfold counting. by rewrite list_lookup_fmap, lookup_seq_lt.
Qed.

(** Both creation loops visit the coefficients in storage order, so each
    leaves [1, 2, ..., rows * cols] in the storage. *)
Lemma matrix_colmajor_storage rows cols :
  Z.of_nat (rows * cols) < 2 ^ 31 ->
  matrix_colmajor rows cols
  = {| d_rows := rows; d_cols := cols; d_order := ColMajor;
       d_coeffs := counting (rows * cols) |}.
Proof.
  intros Hfit. unfold matrix_colmajor, dense_new.
  assert (Hloop : fills rows cols ColMajor
            (iterate 0 cols (fun c => iterate 0 rows (fun r => store_next_count r c)))
            0 (cols * rows)).
  { apply fills_loop. intros c Hc.
    replace rows with (rows * 1)%nat at 4 by lia.
    apply fills_loop. intros r Hr. apply fills_cell. unfold coeff_index. simpl. lia. }
  specialize (Hloop [] (replicate (rows * cols) (S754_zero false)) [] 0).
  simpl in Hloop. rewrite app_nil_r in Hloop.
  rewrite Hloop; [|done|rewrite length_replicate; lia|lia|lia].
  simpl. f_equal. rewrite app_nil_r. unfold counting.
  replace (cols * rows)%nat with (rows * cols)%nat by lia.
  apply list_fmap_ext. intros _ k _. f_equal. lia.
Qed.

Lemma matrix_rowmajor_storage rows cols :
  Z.of_nat (rows * cols) < 2 ^ 31 ->
  matrix_rowmajor rows cols
  = {| d_rows := rows; d_cols := cols; d_order := RowMajor;
       d_coeffs := counting (rows * cols) |}.
Proof.
  intros Hfit. unfold matrix_rowmajor, dense_new.
  assert (Hloop : fills rows cols RowMajor
            (iterate 0 rows (fun r => iterate 0 cols (fun c => store_next_count r c)))
            0 (rows * cols)).
  { apply fills_loop. intros r Hr.
    replace cols with (cols * 1)%nat at 4 by lia.
    apply fills_loop. intros c Hc. apply fills_cell. unfold coeff_index. simpl. lia. }
  specialize (Hloop [] (replicate (rows * cols) (S754_zero false)) [] 0).
  simpl in Hloop. rewrite app_nil_r in Hloop.
  rewrite Hloop; [|done|rewrite length_replicate; lia|lia|lia].
  simpl. f_equal. rewrite app_nil_r. unfold counting.
  apply list_fmap_ext. intros _ k _. f_equal. lia.
Qed.

(** X1. [matrix_colmajor] returns a [rows] x [cols] matrix whose
    coefficient [(r, c)] is [(float)(c * rows + r + 1)]: the columns are
    numbered through one after the other, starting from 1. Up to [2^24]
    coefficients that number is held exactly. *)
Theorem matrix_colmajor_numbers_columns rows cols :
  Z.of_nat (rows * cols) < 2 ^ 31 ->
  let m := matrix_colmajor rows cols in
  d_rows m = rows /\
  d_cols m = cols /\
  length (d_coeffs m) = (rows * cols)%nat /\
  forall r c, (r < rows)%nat -> (c < cols)%nat ->
    let k := Z.of_nat c * Z.of_nat rows + Z.of_nat r + 1 in
    coeff m r c = Some (Float32.of_Z k) /\
    (k <= 2 ^ 24 -> Float32.to_Z (Float32.of_Z k) = Some k).
Proof.
  intros Hfit m. unfold m. rewrite (matrix_colmajor_storage rows cols Hfit).
  cbn [d_rows d_cols d_coeffs].
  split; [done|]. split; [done|].
  split; [unfold counting; by rewrite length_map, length_seq|].
  intros r c Hr Hc. split.
  - unfold coeff, coeff_index. cbn [d_rows d_cols d_coeffs d_order].
    rewrite (proj2 (Nat.ltb_lt _ _) Hr), (proj2 (Nat.ltb_lt _ _) Hc). simpl.
    rewrite counting_lookup by nia. do 2 f_equal. lia.
  - intros Hk. apply Float32_of_Z_exact. lia.
Qed.

Lemma matrix_colmajor_numbers_columns_witness :
  let m := matrix_colmajor 3 4 in
  d_rows m = 3%nat /\
  d_cols m = 4%nat /\
  length (d_coeffs m) = (3 * 4)%nat /\
  forall r c, (r < 3)%nat -> (c < 4)%nat ->
    let k := Z.of_nat c * Z.of_nat 3 + Z.of_nat r + 1 in
    coeff m r c = Some (Float32.of_Z k) /\
    (k <= 2 ^ 24 -> Float32.to_Z (Float32.of_Z k) = Some k).
Proof. apply (matrix_colmajor_numbers_columns 3 4). reflexivity. Defined.

(** X2. [matrix_rowmajor] returns a [rows] x [cols] matrix whose
    coefficient [(r, c)] is [(float)(r * cols + c + 1)]: the rows are
    numbered through one after the other, starting from 1. *)
Theorem matrix_rowmajor_numbers_rows rows cols :
  Z.of_nat (rows * cols) < 2 ^ 31 ->
  let m := matrix_rowmajor rows cols in
  d_rows m = rows /\
  d_cols m = cols /\
  length (d_coeffs m) = (rows * cols)%nat /\
  forall r c, (r < rows)%nat -> (c < cols)%nat ->
    let k := Z.of_nat r * Z.of_nat cols + Z.of_nat c + 1 in
    coeff m r c = Some (Float32.of_Z k) /\
    (k <= 2 ^ 24 -> Float32.to_Z (Float32.of_Z k) = Some k).
Proof.
  intros Hfit m. unfold m. rewrite (matrix_rowmajor_storage rows cols Hfit).
  cbn [d_rows d_cols d_coeffs].
  split; [done|]. split; [done|].
  split; [unfold counting; by rewrite length_map, length_seq|].
  intros r c Hr Hc. split.
  - unfold coeff, coeff_index. cbn [d_rows d_cols d_coeffs d_order].
    rewrite (proj2 (Nat.ltb_lt _ _) Hr), (proj2 (Nat.ltb_lt _ _) Hc). simpl.
    rewrite counting_lookup by nia. do 2 f_equal. lia.
  - intros Hk. apply Float32_of_Z_exact. lia.
Qed.

Lemma matrix_rowmajor_numbers_rows_witness :
  let m := matrix_rowmajor 3 4 in
  d_rows m = 3%nat /\
  d_cols m = 4%nat /\
  length (d_coeffs m) = (3 * 4)%nat /\
  forall r c, (r < 3)%nat -> (c < 4)%nat ->
    let k := Z.of_nat r * Z.of_nat 4 + Z.of_nat c + 1 in
    coeff m r c = Some (Float32.of_Z k) /\
    (k <= 2 ^ 24 -> Float32.to_Z (Float32.of_Z k) = Some k).
Proof. apply (matrix_rowmajor_numbers_rows 3 4). reflexivity. Defined.

(** X3. The two creation routines lay out the same storage, and the
    row-major matrix is the transpose of the column-major matrix with the
    extents exchanged: its [(r, c)] is the other's [(c, r)], inside and
    outside the extents. *)
Theorem matrix_rowmajor_is_transposed_colmajor rows cols :
  Z.of_nat (rows * cols) < 2 ^ 31 ->
  d_coeffs (matrix_rowmajor rows cols) = d_coeffs (matrix_colmajor cols rows) /\
  forall r c, coeff (matrix_rowmajor rows cols) r c = coeff (matrix_colmajor cols rows) c r.
Proof.
  intros Hfit.
  rewrite (matrix_rowmajor_storage rows cols Hfit).
  rewrite (matrix_colmajor_storage cols rows) by lia.
  cbn [d_coeffs]. replace (cols * rows)%nat with (rows * cols)%nat by lia.
  split; [done|].
  intros r c. unfold coeff, coeff_index. cbn [d_rows d_cols d_coeffs d_order].
  rewrite andb_comm. destruct ((c <? cols)%nat && (r <? rows)%nat); [|done].
  f_equal. lia.
Qed.

Lemma matrix_rowmajor_is_transposed_colmajor_witness :
  d_coeffs (matrix_rowmajor 3 4) = d_coeffs (matrix_colmajor 4 3) /\
  forall r c, coeff (matrix_rowmajor 3 4) r c = coeff (matrix_colmajor 4 3) c r.
Proof. apply (matrix_rowmajor_is_transposed_colmajor 3 4). reflexivity. Defined.

(** ** Exact float arithmetic on small integers *)

(** Float addition is commutative, special values included. *)
Lemma Float32_add_comm x y : Float32.add x y = Float32.add y x.
Proof.
  unfold Float32.add.
  destruct x as [sx|sx| |sx mx ex], y as [sy|sy| |sy my ey]; simpl; try reflexivity;
    try (destruct sx, sy; reflexivity).
  rewrite (Z.min_comm ey ex). f_equal. apply Z.add_comm.
Qed.

Lemma iter_pos_iter {A} (f : A -> A) n : forall x, SpecFloat.iter_pos f n x = Pos.iter f x n.
Proof.
  induction n as [n IH|n IH|]; intros x; simpl.
  - rewrite !IH. by rewrite <- !Pos.iter_swap.
  - by rewrite !IH.
  - done.
Qed.

Lemma shr_trailing_zeros n :
  forall m,
    SpecFloat.iter_pos shr_1 n {| shr_m := Zpos (Pos.iter xO m n); shr_r := false; shr_s := false |}
    = {| shr_m := Zpos m; shr_r := false; shr_s := false |}.
Proof.
  intros m. rewrite iter_pos_iter.
  induction n as [|n IH] using Pos.peano_ind.
  - reflexivity.
  - rewrite Pos.iter_succ_r. rewrite Pos.iter_succ. simpl. exact IH.
Qed.

Lemma Zpos_inj_eq p q : Zpos p = Zpos q -> p = q.
Proof. congruence. Qed.

(** The canonical form of a small positive integer: 24 mantissa digits. *)
Lemma of_Z_pos_form p :
  Zpos p < 2 ^ 24 ->
  exists mx,
    Float32.of_Z (Zpos p) = S754_finite false mx (Zpos (digits2_pos p) - 24) /\
    Zpos mx = Zpos p * 2 ^ (24 - Zpos (digits2_pos p)) /\
    Zpos (digits2_pos mx) = 24.
Proof.
  intros Hp.
  assert (Hd : Zpos (digits2_pos p) <= 24) by (apply digits2_pos_bound; lia).
  pose proof (Pos2Z.is_pos (digits2_pos p)) as Hd0.
  unfold Float32.of_Z, Float32.prec, Float32.emax, binary_normalize, binary_round.
  replace (fexp 24 128 (Zpos (digits2_pos p) + 0)) with (Zpos (digits2_pos p) - 24)
    by (unfold fexp, emin; lia).
  unfold shl_align.
  destruct (Zpos (digits2_pos p) - 24 - 0) as [|k|k] eqn:Hk; [|lia|].
  - exists p. rewrite binary_round_aux_exact by lia.
    replace (Zpos (digits2_pos p) - 24) with 0 by lia.
    replace (24 - Zpos (digits2_pos p)) with 0 by lia.
    split; [done|]. split; lia.
  - exists (Pos.iter xO p k).
    assert (Hdk : Zpos (digits2_pos (Pos.iter xO p k)) = 24) by (rewrite iter_xO_digits; lia).
    rewrite binary_round_aux_exact by (done || lia).
    split; [done|]. split; [|done].
    rewrite iter_xO_value. do 2 f_equal. lia.
Qed.

Lemma shl_align_value mx ex ez :
  ez <= ex -> Zpos (fst (shl_align mx ex ez)) = Zpos mx * 2 ^ (ex - ez).
Proof.
  intros Hle. unfold shl_align.
  destruct (ez - ex) as [|k|k] eqn:Hk; [|lia|]; simpl.
  - replace (ex - ez) with 0 by lia. lia.
  - rewrite iter_xO_value. do 2 f_equal. lia.
Qed.

Lemma shr_fexp_trailing q m n e :
  q = Pos.iter xO m n ->
  fexp 24 128 (Zpos (digits2_pos q) + e) - e = Zpos n ->
  shr_fexp 24 128 (Zpos q) e loc_Exact
  = ({| shr_m := Zpos m; shr_r := false; shr_s := false |}, e + Zpos n).
Proof.
  intros Hq Hshift. unfold shr_fexp. simpl Zdigits2. rewrite Hshift.
  unfold shr_record_of_loc, shr. by rewrite Hq, shr_trailing_zeros.
Qed.

Lemma shr_fexp_none m e :
  fexp 24 128 (Zpos (digits2_pos m) + e) - e = 0 ->
  shr_fexp 24 128 (Zpos m) e loc_Exact
  = ({| shr_m := Zpos m; shr_r := false; shr_s := false |}, e).
Proof.
  intros Hshift. unfold shr_fexp. simpl Zdigits2. by rewrite Hshift.
Qed.

(** Rounding [m * 2^23] at exponent -23 is the conversion of [m]. *)
Lemma binary_round_scaled q m :
  Zpos q = Zpos m * 2 ^ 23 ->
  2 <= Zpos m < 2 ^ 24 ->
  binary_round 24 128 false q (-23) = Float32.of_Z (Zpos m).
Proof.
  intros Hq Hm.
  destruct (of_Z_pos_form m) as (m2 & Hof & Hval & Hdig); [lia|].
  rewrite Hof.
  assert (Hd : Zpos (digits2_pos m) <= 24) by (apply digits2_pos_bound; lia).
  assert (Hd2 : 2 <= Zpos (digits2_pos m)).
  { destruct m as [m|m|]; simpl; lia. }
  set (d := Zpos (digits2_pos m)) in *.
  assert (Hq23 : q = Pos.iter xO m 23).
  { apply Zpos_inj_eq. rewrite iter_xO_value. exact Hq. }
  assert (Hdq : Zpos (digits2_pos q) = d + 23).
  { rewrite Hq23, iter_xO_digits. reflexivity. }
  destruct (d - 1) as [|n|n] eqn:Hn; try lia.
  assert (Hqn : q = Pos.iter xO m2 n).
  { apply Zpos_inj_eq. rewrite iter_xO_value, Hval, Hq.
    rewrite <- Z.mul_assoc, <- Z.pow_add_r by lia. do 2 f_equal. lia. }
  unfold binary_round. rewrite Hdq.
  replace (fexp 24 128 (d + 23 + -23)) with (d - 24) by (unfold fexp, emin; lia).
  unfold shl_align. replace (d - 24 - -23) with (Zpos n) by lia.
  unfold binary_round_aux.
  rewrite (shr_fexp_trailing q m2 n (-23) Hqn)
    by (rewrite Hdq; unfold fexp, emin; lia).
  cbn [loc_of_shr_record shr_m round_nearest_even].
  rewrite shr_fexp_none by (rewrite Hdig; unfold fexp, emin; lia).
  cbn [shr_m].
  replace (-23 + Zpos n <=? 128 - 24) with true by (symmetry; apply Z.leb_le; lia).
  f_equal. lia.
Qed.

(** Adding one to a float that holds an integer below [2^24] is exact. *)
Lemma Float32_add_one z :
  0 <= z < 2 ^ 24 ->
  Float32.add (Float32.of_Z z) (Float32.of_Z 1) = Float32.of_Z (z + 1).
Proof.
  intros Hz. destruct z as [|p|p]; [reflexivity| |lia].
  destruct (Z.eq_dec (Zpos p) (2 ^ 24 - 1)) as [Heq|Hne].
  { apply Zpos_inj_eq in Heq. subst p. vm_compute. reflexivity. }
  destruct (of_Z_pos_form p) as (mx & Hof & Hval & Hdig); [lia|].
  assert (Hd : Zpos (digits2_pos p) <= 24) by (apply digits2_pos_bound; lia).
  pose proof (Pos2Z.is_pos (digits2_pos p)) as Hd0.
  rewrite Hof. set (ex := Zpos (digits2_pos p) - 24) in *.
  change (Float32.of_Z 1) with (S754_finite false 8388608 (-23)).
  unfold Float32.add, SFadd.
  rewrite Z.min_r by lia.
  change (fst (shl_align 8388608 (-23) (-23))) with 8388608%positive.
  cbn [cond_Zopp Z.add].
  unfold binary_normalize.
  change (Zpos p + 1) with (Zpos (p + 1)).
  apply binary_round_scaled; [|lia].
  rewrite Pos2Z.inj_add, shl_align_value by lia.
  rewrite Hval, <- Z.mul_assoc, <- Z.pow_add_r by lia.
  replace (24 - Zpos (digits2_pos p) + (ex - -23)) with 23 by lia.
  lia.
Qed.

(** Doubling a float with a full mantissa raises its exponent by one. *)
Lemma Float32_double_normal s mx ex :
  Zpos (digits2_pos mx) = 24 -> -149 <= ex < 104 ->
  Float32.mul (S754_finite s mx ex) Float32.two = S754_finite s mx (ex + 1).
Proof.
  intros Hd He.
  change Float32.two with (S754_finite false 8388608 (-22)).
  unfold Float32.mul, SFmul, Float32.prec, Float32.emax. rewrite xorb_false_r.
  assert (Hq : (mx * 8388608)%positive = Pos.iter xO mx 23).
  { apply Zpos_inj_eq. rewrite iter_xO_value, Pos2Z.inj_mul. reflexivity. }
  unfold binary_round_aux.
  rewrite (shr_fexp_trailing _ mx 23 (ex + -22) Hq)
    by (rewrite Hq, iter_xO_digits, Hd; unfold fexp, emin; lia).
  cbn [loc_of_shr_record shr_m round_nearest_even].
  rewrite shr_fexp_none by (rewrite Hd; unfold fexp, emin; lia).
  cbn [shr_m].
  replace (ex + -22 + 23 <=? 128 - 24) with true by (symmetry; apply Z.leb_le; lia).
  f_equal. lia.
Qed.

(** Doubling a float that holds an integer below [2^23] is exact. *)
Lemma Float32_double_of_Z z :
  0 <= z < 2 ^ 23 ->
  Float32.mul (Float32.of_Z z) Float32.two = Float32.of_Z (2 * z).
Proof.
  intros Hz. destruct z as [|p|p]; [reflexivity| |lia].
  destruct (of_Z_pos_form p) as (mx & Hof & Hval & Hdig); [lia|].
  destruct (of_Z_pos_form (p~0)) as (mx' & Hof' & Hval' & Hdig'); [lia|].
  assert (Hd : Zpos (digits2_pos p) <= 23).
  { apply digits2_pos_bound; lia. }
  pose proof (Pos2Z.is_pos (digits2_pos p)) as Hd0.
  change (2 * Zpos p) with (Zpos p~0).
  rewrite Hof, Hof', Float32_double_normal by (done || lia).
  simpl digits2_pos in *. rewrite Pos2Z.inj_succ in *.
  f_equal; [|lia].
  apply Zpos_inj_eq. rewrite Hval, Hval'. rewrite Pos2Z.inj_xO.
  replace (24 - Zpos (digits2_pos p)) with (Z.succ (24 - Z.succ (Zpos (digits2_pos p)))) by lia.
  rewrite Z.pow_succ_r by lia. lia.
Qed.

(** ** Vectors and sums *)

Lemma iterate_set_segment R C O (g : nat -> spec_float) n :
  forall lo pre mid post,
    length mid = n ->
    (forall k, (k < n)%nat ->
       coeff_index {| d_rows := R; d_cols := C; d_order := O; d_coeffs := [] |} (lo + k) 0
       = (length pre + k)%nat) ->
    iterate lo n (fun i vec => set_coeff vec i 0 (g i))
            {| d_rows := R; d_cols := C; d_order := O; d_coeffs := pre ++ mid ++ post |}
    = {| d_rows := R; d_cols := C; d_order := O;
         d_coeffs := pre ++ map g (seq lo n) ++ post |}.
Proof.
  induction n as [|n IH]; intros lo pre mid post Hlen Hix.
  - by destruct mid.
  - destruct mid as [|x mid]; [discriminate|]. cbn [iterate].
    unfold set_coeff at 2. cbn [d_rows d_cols d_order d_coeffs].
    replace (coeff_index _ lo 0) with (length pre + 0)%nat.
    2:{ rewrite <- (Hix 0%nat) by lia. unfold coeff_index. simpl.
        by rewrite !Nat.add_0_r. }
    rewrite insert_app_r. simpl.
    replace (pre ++ g lo :: mid ++ post) with ((pre ++ [g lo]) ++ mid ++ post)
      by (by rewrite <- app_assoc).
    rewrite IH.
    + by rewrite <- app_assoc.
    + simpl in Hlen. lia.
    + intros k Hk. rewrite length_app. cbn [length].
      replace (S lo + k)%nat with (lo + S k)%nat by lia.
      rewrite Hix by lia. lia.
Qed.

(** X4. [vector_create] returns a column vector of the requested size
    whose coefficient [i] is [(float) i + 1.0f]; up to [2^24] coefficients
    this is the float [i + 1] exactly, so the vector reads 1, 2, ..., size.
    An index outside the vector has no coefficient. *)
Theorem vector_create_counts_from_one size :
  Z.of_nat size <= 2 ^ 24 ->
  let vec := vector_create size in
  d_rows vec = size /\
  d_cols vec = 1%nat /\
  length (d_coeffs vec) = size /\
  (forall i, (i < size)%nat ->
     coeff vec i 0 = Some (Float32.of_Z (Z.of_nat i + 1)) /\
     Float32.to_Z (Float32.of_Z (Z.of_nat i + 1)) = Some (Z.of_nat i + 1)) /\
  (forall i, (size <= i)%nat -> coeff vec i 0 = None).
Proof.
  intros Hsize vec.
  assert (Hvec : vec = {| d_rows := size; d_cols := 1; d_order := ColMajor;
                          d_coeffs := counting size |}).
  { unfold vec, vector_create, dense_new.
    pose proof (iterate_set_segment size 1 ColMajor
                  (fun i => Float32.add (Float32.of_Z (Z.of_nat i)) (Float32.of_Z 1))
                  size 0 [] (replicate (size * 1) (S754_zero false)) []) as Hrun.
    cbn [app length] in Hrun. rewrite !app_nil_r in Hrun.
    rewrite Hrun.
    - f_equal. unfold counting. apply list_eq. intros i.
      rewrite !list_lookup_fmap.
      destruct (decide (i < size)%nat) as [Hi|Hi].
      + rewrite lookup_seq_lt by done. simpl. f_equal.
        apply Float32_add_one. lia.
      + by rewrite lookup_seq_ge by lia.
    - rewrite length_replicate. lia.
    - intros k Hk. unfold coeff_index. simpl. lia. }
  rewrite Hvec. cbn [d_rows d_cols d_coeffs].
  split; [done|]. split; [done|].
  split; [unfold counting; by rewrite length_map, length_seq|].
  split.
  - intros i Hi. split.
    + unfold coeff, coeff_index. cbn [d_rows d_cols d_coeffs d_order].
      rewrite (proj2 (Nat.ltb_lt _ _) Hi). simpl.
      rewrite Nat.add_0_r. by apply counting_lookup.
    + apply Float32_of_Z_exact. lia.
  - intros i Hi. unfold coeff. cbn [d_rows d_cols].
    by rewrite (proj2 (Nat.ltb_ge _ _) Hi).
Qed.

Lemma vector_create_counts_from_one_witness :
  let vec := vector_create 5 in
  d_rows vec = 5%nat /\
  d_cols vec = 1%nat /\
  length (d_coeffs vec) = 5%nat /\
  (forall i, (i < 5)%nat ->
     coeff vec i 0 = Some (Float32.of_Z (Z.of_nat i + 1)) /\
     Float32.to_Z (Float32.of_Z (Z.of_nat i + 1)) = Some (Z.of_nat i + 1)) /\
  (forall i, (5 <= i)%nat -> coeff vec i 0 = None).
Proof. apply (vector_create_counts_from_one 5). vm_compute. discriminate. Defined.

(** X5. [matrix_sum] of two column-major matrices with equal extents is
    the matrix of those extents whose coefficient [(r, c)] is the float sum
    of the two coefficients there; the order of the arguments does not
    matter. With different extents there is no result. *)
Theorem matrix_sum_coefficientwise a b :
  d_order a = ColMajor -> d_order b = ColMajor ->
  length (d_coeffs a) = (d_rows a * d_cols a)%nat ->
  length (d_coeffs b) = (d_rows b * d_cols b)%nat ->
  (d_rows a = d_rows b /\ d_cols a = d_cols b ->
   exists m,
     matrix_sum a b = Some m /\
     matrix_sum b a = Some m /\
     d_rows m = d_rows a /\
     d_cols m = d_cols a /\
     forall r c, (r < d_rows a)%nat -> (c < d_cols a)%nat ->
       exists x y,
         coeff a r c = Some x /\ coeff b r c = Some y /\
         coeff m r c = Some (Float32.add x y)) /\
  (~ (d_rows a = d_rows b /\ d_cols a = d_cols b) ->
   matrix_sum a b = None /\ matrix_sum b a = None).
Proof.
  intros Hoa Hob Hla Hlb. split.
  - intros [Hr Hc]. unfold matrix_sum.
    rewrite Hr, Hc, !Nat.eqb_refl. simpl.
    eexists. split; [reflexivity|]. split.
    { do 2 f_equal. apply list_eq. intros i. rewrite !lookup_zip_with.
      destruct (d_coeffs a !! i), (d_coeffs b !! i); simpl; try done.
      by rewrite Float32_add_comm. }
    cbn [d_rows d_cols]. split; [done|]. split; [done|].
    intros r c Hrr Hcc.
    assert (Hi : (r + c * d_rows b < length (d_coeffs a))%nat) by (rewrite Hla; nia).
    assert (Hj : (r + c * d_rows b < length (d_coeffs b))%nat) by (rewrite Hlb; nia).
    destruct (lookup_lt_is_Some_2 _ _ Hi) as [x Hx].
    destruct (lookup_lt_is_Some_2 _ _ Hj) as [y Hy].
    exists x, y. unfold coeff, coeff_index.
    cbn [d_rows d_cols d_order d_coeffs]. rewrite Hoa, Hob, Hr, Hc.
    rewrite <- Hr, <- Hc at 1.
    rewrite (proj2 (Nat.ltb_lt _ _) Hrr), (proj2 (Nat.ltb_lt _ _) Hcc). simpl.
    rewrite Hr, Hc, (proj2 (Nat.ltb_lt r (d_rows b))), (proj2 (Nat.ltb_lt c (d_cols b)))
      by lia.
    simpl. split; [done|]. split; [done|].
    by rewrite lookup_zip_with, Hx, Hy.
  - intros Hne. unfold matrix_sum.
    rewrite (Nat.eqb_sym (d_rows b)), (Nat.eqb_sym (d_cols b)).
    destruct (d_rows a =? d_rows b)%nat eqn:Er, (d_cols a =? d_cols b)%nat eqn:Ec;
      try done.
    apply Nat.eqb_eq in Er, Ec. tauto.
Qed.

Lemma matrix_sum_coefficientwise_witness :
  exists m,
    matrix_sum (matrix_colmajor 2 3) (matrix_colmajor 2 3) = Some m /\
    d_rows m = 2%nat /\ d_cols m = 3%nat.
Proof.
  destruct (matrix_sum_coefficientwise (matrix_colmajor 2 3) (matrix_colmajor 2 3))
    as [Hsame _]; [reflexivity..|].
  destruct Hsame as (m & Hab & _ & Hr & Hc & _); [split; reflexivity|].
  exists m. split; [exact Hab|]. split; [exact Hr|exact Hc].
Defined.

(** ** Loops that rewrite cells in place *)

Section Updates.

Variables (b : nat) (P : scalar -> Prop) (f : scalar -> scalar).

Lemma updates_cell (p : ptr) (g : scalar -> M unit) o :
  p = {| p_block := b; p_off := Z.of_nat o |} ->
  (forall v, P v -> g v = store p (f v)) ->
  updates b P f (let* v := load p in g v) o 1.
Proof.
  intros Hp Hg pre mid post s Hb Hpre Hmid HP.
  destruct mid as [|x [|? ?]]; try discriminate.
  apply Forall_cons in HP as [Hx _]. subst o p. simpl in Hb.
  eexists. split; [|split].
  - unfold bind, load, resolve. cbn [p_block p_off]. rewrite Hb, cell_index_middle.
    rewrite lookup_app_r, Nat.sub_diag by lia. cbn [lookup list_lookup].
    rewrite (Hg x Hx).
    apply (store_middle b pre x post (f x) (log _ s)). exact Hb.
  - reflexivity.
  - reflexivity.
Qed.

Lemma updates_loop (body : nat -> M unit) c n :
  forall lo o,
    (forall i, (i < n)%nat -> updates b P f (body (lo + i)%nat) (o + i * c) c) ->
    updates b P f (for_range lo n body) o (n * c).
Proof.
  induction n as [|n IH]; intros lo o Hbody pre mid post s Hb Hpre Hmid HP.
  - destruct mid; [|discriminate]. exists s. split; [done|]. split; [|done].
    simpl in *. by rewrite insert_id.
  - assert (Htake : length (take c mid) = c) by (rewrite length_take; simpl in Hmid; lia).
    assert (Hdrop : length (skipn c mid) = (n * c)%nat)
      by (rewrite length_skipn; simpl in Hmid; lia).
    pose proof (Hbody 0%nat ltac:(lia)) as H0.
    rewrite Nat.add_0_r in H0. simpl in H0. rewrite Nat.add_0_r in H0.
    destruct (H0 pre (take c mid) (skipn c mid ++ post) s) as (s1 & Hrun1 & Hheap1 & Htok1).
    { rewrite <- (take_drop c mid), <- app_assoc in Hb. exact Hb. }
    { done. } { done. } { by apply Forall_take. }
    destruct (IH (S lo) (o + c)%nat) with
      (pre := pre ++ map f (take c mid)) (mid := skipn c mid) (post := post) (s := s1)
      as (s2 & Hrun2 & Hheap2 & Htok2).
    { intros i Hi. replace (S lo + i)%nat with (lo + S i)%nat by lia.
      replace (o + c + i * c)%nat with (o + S i * c)%nat by lia.
      apply Hbody. lia. }
    { rewrite Hheap1, lookup_insert_eq. by rewrite <- app_assoc. }
    { rewrite length_app, length_map. lia. }
    { done. } { by apply Forall_drop. }
    exists s2. split; [|split].
    + cbn [for_range]. unfold bind. rewrite Hrun1. exact Hrun2.
    + rewrite Hheap2, Hheap1, insert_insert_eq. do 2 f_equal.
      rewrite <- app_assoc. f_equal. rewrite app_assoc, <- map_app.
      by rewrite take_drop.
    + by rewrite Htok2.
Qed.

End Updates.

(** ** Image processing *)

(** X6. On a packed M x N x 3 image of [uint8_t] channel values,
    [process_rgb_image] replaces every channel value [n] by
    [min(255, 2 * n)]: a value from 128 on saturates at 255 instead of
    wrapping, every new value is again within 0..255 (so the cast back to
    [uint8_t] loses nothing), and the cells before and after the image,
    the other allocations and the tokens are left as they were. *)
Theorem process_rgb_image_brightens img s M N pre px post :
  shape img = [M; N; 3]%nat ->
  strides img = packed_c [M; N; 3]%nat ->
  heap s !! p_block (data img) = Some (Buffer (pre ++ map U8 px ++ post)) ->
  p_off (data img) = Z.of_nat (length pre) ->
  length px = (M * (N * 3))%nat ->
  Forall (fun n => 0 <= n <= 255) px ->
  exists s',
    process_rgb_image img s = (Ok tt, s') /\
    heap s' = <[p_block (data img) :=
                  Buffer (pre ++ map U8 (map (fun n => Z.min 255 (n * 2)) px) ++ post)]>
                (heap s) /\
    tokens s' = tokens s /\
    Forall (fun n => 0 <= n <= 255) (map (fun n => Z.min 255 (n * 2)) px) /\
    (forall k n, px !! k = Some n -> 128 <= n ->
       map (fun n => Z.min 255 (n * 2)) px !! k = Some 255).
Proof.
  intros Hsh Hst Hb Hoff Hlen Hrange.
  assert (Hupd : updates (p_block (data img)) is_u8 brighten
                   (process_rgb_image img) (length pre) (M * (N * 3))).
  { unfold process_rgb_image, for_upto, shape_at. rewrite Hsh. cbn [nth].
    apply updates_loop. intros y Hy.
    apply updates_loop. intros x Hx.
    apply (updates_loop _ _ _ _ 1 3). intros ch Hch.
    apply updates_cell.
    - unfold elem_ref3, stride_at. rewrite Hst, Hoff. cbn [packed_c numel nth].
      f_equal. lia.
    - intros v [n ->]. reflexivity. }
  destruct (Hupd pre (map U8 px) post s Hb eq_refl) as (s' & Hrun & Hheap & Htok).
  { by rewrite length_map. }
  { apply Forall_forall. intros v Hv. apply list_elem_of_fmap in Hv as (n & -> & _).
    by exists n. }
  exists s'. split; [exact Hrun|]. split.
  - rewrite Hheap. do 3 f_equal. by rewrite <- !list_fmap_compose.
  - split; [exact Htok|]. split.
    + apply Forall_fmap. eapply Forall_impl; [exact Hrange|]. simpl. lia.
    + intros k n Hk Hn. rewrite list_lookup_fmap, Hk. simpl. f_equal. lia.
Qed.

Lemma process_rgb_image_brightens_witness :
  let img := sample_array UInt8 [1; 2; 3]%nat in
  let s := {| heap := {[ 0%nat := Buffer (map U8 [0; 10; 127; 128; 200; 255]) ]};
              tokens := ∅; events := [] |} in
  exists s',
    process_rgb_image img s = (Ok tt, s') /\
    heap s' = <[0%nat := Buffer ([] ++ map U8 (map (fun n => Z.min 255 (n * 2))
                                                    [0; 10; 127; 128; 200; 255]) ++ [])]>
                (heap s) /\
    tokens s' = tokens s /\
    Forall (fun n => 0 <= n <= 255)
           (map (fun n => Z.min 255 (n * 2)) [0; 10; 127; 128; 200; 255]) /\
    (forall k n, [0; 10; 127; 128; 200; 255] !! k = Some n -> 128 <= n ->
       map (fun n => Z.min 255 (n * 2)) [0; 10; 127; 128; 200; 255] !! k = Some 255).
Proof.
  intros img s.
  apply (process_rgb_image_brightens img s 1 2 [] [0; 10; 127; 128; 200; 255] []);
    try reflexivity.
  repeat (apply Forall_cons; split; [lia|]). apply Forall_nil_2.
Defined.

(** ** The Eigen maps *)

Lemma map_matrix_rejects array s :
  ndim array <> 2%nat ->
  map_matrix array s = (Err (RuntimeError "Expected a 2D array"), s).
Proof.
  intros Hn. unfold map_matrix. apply Nat.eqb_neq in Hn. by rewrite Hn.
Qed.

Lemma map_matrix_accepts array s msg :
  ndim array = 2%nat -> fst (map_matrix array s) <> Err (RuntimeError msg).
Proof.
  intros Hn. unfold map_matrix. rewrite Hn. simpl.
  destruct (scale_in_place _ _ s) as [[[]|e] s'] eqn:Hrun; [done|].
  apply scale_loop_errors in Hrun as [p ->]. done.
Qed.

(** X7. The rank check of the two map routines: [map_vector] raises its
    runtime error exactly when the array is not one-dimensional and
    [map_matrix] exactly when it is not two-dimensional, each with its own
    message and before touching anything. With the right rank a failure,
    if there is one, is an invalid memory access. *)
Theorem map_routines_check_rank array s :
  ((exists msg, fst (map_vector array s) = Err (RuntimeError msg)) <-> ndim array <> 1%nat) /\
  (ndim array <> 1%nat ->
     map_vector array s = (Err (RuntimeError "Expected a 1D array"), s)) /\
  ((exists msg, fst (map_matrix array s) = Err (RuntimeError msg)) <-> ndim array <> 2%nat) /\
  (ndim array <> 2%nat ->
     map_matrix array s = (Err (RuntimeError "Expected a 2D array"), s)) /\
  (forall e, ndim array = 1%nat -> fst (map_vector array s) = Err e ->
     exists p, e = InvalidAccess p) /\
  (forall e, ndim array = 2%nat -> fst (map_matrix array s) = Err e ->
     exists p, e = InvalidAccess p).
Proof.
  split; [|split; [|split; [|split; [|split]]]].
  - split.
    + intros [msg Herr] Hn. by apply (map_vector_accepts array s msg Hn).
    + intros Hn. eexists. by rewrite (map_vector_rejects array s Hn).
  - apply map_vector_rejects.
  - split.
    + intros [msg Herr] Hn. by apply (map_matrix_accepts array s msg Hn).
    + intros Hn. eexists. by rewrite (map_matrix_rejects array s Hn).
  - apply map_matrix_rejects.
  - intros e Hn. unfold map_vector. rewrite Hn. cbn [Nat.eqb negb].
    destruct (scale_in_place _ _ s) as [[[]|e'] s'] eqn:Hrun; [done|].
    intros [= <-]. by apply scale_loop_errors in Hrun.
  - intros e Hn. unfold map_matrix. rewrite Hn. cbn [Nat.eqb negb].
    destruct (scale_in_place _ _ s) as [[[]|e'] s'] eqn:Hrun; [done|].
    intros [= <-]. by apply scale_loop_errors in Hrun.
Qed.

(** X8. [map_vector] on a packed vector holding the integers [zs], each
    below [2^23], leaves exactly their doubles: [1, 2, 3] becomes
    [2, 4, 6]. Nothing else in memory changes. *)
Theorem map_vector_doubles_integers array s pre zs post :
  shape array = [length zs] ->
  heap s !! p_block (data array)
    = Some (Buffer (pre ++ map (fun z => F32 (Float32.of_Z z)) zs ++ post)) ->
  p_off (data array) = Z.of_nat (length pre) ->
  Forall (fun z => 0 <= z < 2 ^ 23) zs ->
  exists s',
    map_vector array s = (Ok tt, s') /\
    heap s' = <[p_block (data array) :=
                  Buffer (pre ++ map (fun z => F32 (Float32.of_Z (2 * z))) zs ++ post)]>
                (heap s) /\
    tokens s' = tokens s.
Proof.
  intros Hsh Hb Hoff Hz.
  destruct (map_vector_contiguous array s pre (map Float32.of_Z zs) post)
    as (s' & Hrun & Hheap & Htok).
  - by rewrite length_map.
  - by rewrite <- list_fmap_compose.
  - done.
  - exists s'. split; [done|]. split; [|done].
    rewrite Hheap. do 3 f_equal. rewrite <- list_fmap_compose. f_equal.
    apply Forall_fmap_ext_1. eapply Forall_impl; [exact Hz|].
    intros z Hzz. simpl. f_equal. by apply Float32_double_of_Z.
Qed.

Lemma map_vector_doubles_integers_witness :
  let array := sample_array Float32 [3%nat] in
  let s := {| heap := {[ 0%nat := Buffer (map (fun z => F32 (Float32.of_Z z)) [1; 2; 3]) ]};
              tokens := ∅; events := [] |} in
  exists s',
    map_vector array s = (Ok tt, s') /\
    heap s' = <[0%nat := Buffer ([] ++ map (fun z => F32 (Float32.of_Z (2 * z))) [1; 2; 3]
                                    ++ [])]> (heap s) /\
    tokens s' = tokens s.
Proof.
  intros array s.
  apply (map_vector_doubles_integers array s [] [1; 2; 3] []); try reflexivity.
  repeat (apply Forall_cons; split; [lia|]). apply Forall_nil_2.
Defined.

(** X9. [map_matrix] doubles the [rows * cols] floats that start at the
    data pointer and nothing else; it never looks at the strides. For a
    C-contiguous array these floats are its elements, so element [(i, j)]
    ends as twice what it was. *)
Theorem map_matrix_doubles array s r c pre xs post :
  shape array = [r; c] ->
  heap s !! p_block (data array) = Some (Buffer (pre ++ map F32 xs ++ post)) ->
  p_off (data array) = Z.of_nat (length pre) ->
  length xs = (r * c)%nat ->
  exists s',
    map_matrix array s = (Ok tt, s') /\
    heap s' = <[p_block (data array) :=
                  Buffer (pre ++ map (fun x => F32 (Float32.mul x Float32.two)) xs ++ post)]>
                (heap s) /\
    tokens s' = tokens s /\
    (is_contiguous array RowMajor = true ->
     forall i j x, (i < r)%nat -> (j < c)%nat ->
       peek (heap s) (elem_ref2 array i j) = Some (F32 x) ->
       peek (heap s') (elem_ref2 array i j) = Some (F32 (Float32.mul x Float32.two))).
Proof.
  intros Hsh Hb Hoff Hlen.
  destruct (scale_loop_segment (p_block (data array))
              (coeff_ref {| m_data := data array; m_size := (r * c)%nat |})
              Float32.two (r * c) 0 pre xs post s Hb Hlen)
    as (s' & Hrun & Hheap & Htok).
  { intros k _. unfold coeff_ref. cbn [m_data]. rewrite Hoff. f_equal. lia. }
  exists s'. split; [|split; [done|split; [done|]]].
  - unfold map_matrix, ndim, shape_at. rewrite Hsh. simpl. exact Hrun.
  - intros Hc i j x Hi Hj Hbefore.
    assert (Hk : (i * c + j < length xs)%nat) by nia.
    assert (Href : elem_ref2 array i j
                   = {| p_block := p_block (data array);
                        p_off := Z.of_nat (length pre + (i * c + j)) |}).
    { unfold elem_ref2. f_equal.
      rewrite <- Z.add_assoc, (c_contig_offset array r c i j Hsh Hc Hi Hj), Hoff. lia. }
    rewrite Href in *.
    destruct (lookup_lt_is_Some_2 xs _ Hk) as [x0 Hx0].
    rewrite (peek_segment _ _ pre (map F32 xs) post _ (F32 x0) Hb) in Hbefore
      by (by rewrite list_lookup_fmap, Hx0).
    injection Hbefore as ->.
    eapply peek_segment.
    + rewrite Hheap. apply lookup_insert_eq.
    + by rewrite list_lookup_fmap, Hx0.
Qed.

Lemma map_matrix_doubles_witness :
  let array := sample_array Float32 [2; 2]%nat in
  let s := {| heap := {[ 0%nat := Buffer (map F32 (map Float32.of_Z [1; 2; 3; 4])) ]};
              tokens := ∅; events := [] |} in
  exists s',
    map_matrix array s = (Ok tt, s') /\
    heap s' = <[0%nat := Buffer ([] ++ map (fun x => F32 (Float32.mul x Float32.two))
                                          (map Float32.of_Z [1; 2; 3; 4]) ++ [])]>
                (heap s) /\
    tokens s' = tokens s /\
    (is_contiguous array RowMajor = true ->
     forall i j x, (i < 2)%nat -> (j < 2)%nat ->
       peek (heap s) (elem_ref2 array i j) = Some (F32 x) ->
       peek (heap s') (elem_ref2 array i j) = Some (F32 (Float32.mul x Float32.two))).
Proof.
  intros array s.
  apply (map_matrix_doubles array s 2 2 [] (map Float32.of_Z [1; 2; 3; 4]) []);
    reflexivity.
Defined.

(** ** In-place modification through Eigen references *)

Lemma set_first_cell p b pre x post s :
  p = {| p_block := b; p_off := Z.of_nat (length pre) |} ->
  heap s !! b = Some (Buffer (pre ++ x :: post)) ->
  exists s',
    (store p (F32 (Float32.of_Z 99)) ;; let* _ := load p in ret tt) s = (Ok tt, s') /\
    heap s' = <[b := Buffer (pre ++ F32 (Float32.of_Z 99) :: post)]> (heap s) /\
    tokens s' = tokens s.
Proof.
  intros -> Hb. eexists. split; [|split].
  - unfold bind at 1. rewrite (store_middle b pre x post _ s Hb).
    unfold bind, load, resolve. cbn [p_block p_off].
    rewrite heap_written, cell_index_middle.
    rewrite lookup_app_r, Nat.sub_diag by lia. cbn [lookup list_lookup].
    reflexivity.
  - reflexivity.
  - reflexivity.
Qed.

(** X10. [vector_modify] guards the write: on an empty vector it does
    nothing at all, whatever the data pointer is; on a non-empty one it
    sets the first coefficient to 99 and leaves every other cell, allocation
    and token alone. *)
Theorem vector_modify_guards_empty v s :
  (shape_at v 0 = 0%nat -> vector_modify v s = (Ok tt, s)) /\
  (forall pre x post,
     (0 < shape_at v 0)%nat ->
     heap s !! p_block (data v) = Some (Buffer (pre ++ x :: post)) ->
     p_off (data v) = Z.of_nat (length pre) ->
     exists s',
       vector_modify v s = (Ok tt, s') /\
       heap s' = <[p_block (data v) :=
                     Buffer (pre ++ F32 (Float32.of_Z 99) :: post)]> (heap s) /\
       tokens s' = tokens s).
Proof.
  split.
  - intros Hz. unfold vector_modify. by rewrite Hz.
  - intros pre x post Hpos Hb Hoff. unfold vector_modify.
    replace (0 <? Z.of_nat (shape_at v 0)) with true by (symmetry; apply Z.ltb_lt; lia).
    apply (set_first_cell _ _ pre x post s); [|done].
    unfold elem_ref1. f_equal. lia.
Qed.

(** X11. [matrix_modify] sets the coefficient [(0, 0)] of a matrix that has
    one to 99 and leaves every other cell, allocation and token alone. It
    has no guard of its own for a matrix without coefficients: there the
    access [x(0, 0)] is outside the extents and the call has no result,
    whatever lies at the data pointer. *)
Theorem matrix_modify_needs_coefficient x s :
  (forall pre v post,
     (0 < shape_at x 0)%nat -> (0 < shape_at x 1)%nat ->
     heap s !! p_block (data x) = Some (Buffer (pre ++ v :: post)) ->
     p_off (data x) = Z.of_nat (length pre) ->
     exists s',
       matrix_modify x s = (Ok tt, s') /\
       heap s' = <[p_block (data x) :=
                     Buffer (pre ++ F32 (Float32.of_Z 99) :: post)]> (heap s) /\
       tokens s' = tokens s) /\
  (shape_at x 0 = 0%nat \/ shape_at x 1 = 0%nat ->
   fst (matrix_modify x s) = Err (InvalidAccess (elem_ref2 x 0 0))).
Proof.
  split.
  - intros pre v post Hr Hc Hb Hoff. unfold matrix_modify, coeff_ref2.
    replace (0 <? shape_at x 0)%nat with true by (symmetry; apply Nat.ltb_lt; lia).
    replace (0 <? shape_at x 1)%nat with true by (symmetry; apply Nat.ltb_lt; lia).
    cbn [andb]. unfold bind at 1, ret at 1.
    destruct (set_first_cell (elem_ref2 x 0 0) (p_block (data x)) pre v post s)
      as (s' & Hrun & Hheap & Htok); [unfold elem_ref2; f_equal; lia|done|].
    exists s'. split; [|by split].
    rewrite <- Hrun. unfold bind, ret. destruct (store _ _ s) as [[[]|e] s1]; reflexivity.
  - intros Hempty. unfold matrix_modify, coeff_ref2, bind, throw.
    replace ((0 <? shape_at x 0)%nat && (0 <? shape_at x 1)%nat) with false; [done|].
    symmetry. apply andb_false_iff.
    destruct Hempty as [-> | ->]; [by left|by right].
Qed.

(** On a 0 x 3 matrix whose data pointer sits in front of a foreign cell,
    [matrix_modify] has no result, while [vector_modify] leaves an empty
    vector at the same place alone and returns. *)
Lemma modify_on_empty_input :
  let s := {| heap := {[ 0%nat := Buffer [F32 (Float32.of_Z 7)] ]};
              tokens := ∅; events := [] |} in
  numel (shape (sample_array Float32 [0; 3]%nat)) = 0%nat /\
  matrix_modify (sample_array Float32 [0; 3]%nat) s
    = (Err (InvalidAccess {| p_block := 0; p_off := 0 |}), s) /\
  vector_modify (sample_array Float32 [0%nat]) s = (Ok tt, s).
Proof. vm_compute. repeat split. Qed.

Lemma vector_modify_guards_empty_witness :
  let v := sample_array Float32 [2%nat] in
  let s := {| heap := {[ 0%nat := Buffer [F32 (Float32.of_Z 1); F32 (Float32.of_Z 2)] ]};
              tokens := ∅; events := [] |} in
  exists s',
    vector_modify v s = (Ok tt, s') /\
    heap s' = <[0%nat := Buffer ([] ++ [F32 (Float32.of_Z 99); F32 (Float32.of_Z 2)])]>
                (heap s) /\
    tokens s' = tokens s.
Proof.
  intros v s.
  apply (proj2 (vector_modify_guards_empty v s) [] (F32 (Float32.of_Z 1))
           [F32 (Float32.of_Z 2)]); [vm_compute; lia | reflexivity | reflexivity].
Defined.

Lemma matrix_modify_needs_coefficient_witness :
  (let x := sample_array Float32 [2; 2]%nat in
   let s := sample_state 4 in
   exists s',
     matrix_modify x s = (Ok tt, s') /\
     heap s' = <[0%nat := Buffer ([] ++ F32 (Float32.of_Z 99)
                                        :: replicate 3 (F32 (S754_zero false)))]> (heap s) /\
     tokens s' = tokens s) /\
  (let x := sample_array Float32 [0; 3]%nat in
   let s := sample_state 4 in
   fst (matrix_modify x s) = Err (InvalidAccess (elem_ref2 x 0 0))).
Proof.
  split.
  - intros x s.
    apply (proj1 (matrix_modify_needs_coefficient x s) [] (F32 (S754_zero false))
             (replicate 3 (F32 (S754_zero false))));
      [vm_compute; lia | vm_compute; lia | reflexivity | reflexivity].
  - intros x s. apply (proj2 (matrix_modify_needs_coefficient x s)). by left.
Defined.

(** ** More on the fill routines *)

Lemma patch_patch cells o vs ws :
  length vs = length ws ->
  (o + length vs <= length cells)%nat ->
  patch (patch cells o vs) o ws = patch cells o ws.
Proof.
  intros Hlen Hfit. unfold patch.
  assert (Ho : length (take o cells) = o) by (rewrite length_take; lia).
  rewrite take_app_length' by done. do 2 f_equal.
  rewrite <- Hlen, app_assoc.
  rewrite drop_app_length' by (rewrite length_app; lia). reflexivity.
Qed.

(** X12. [fill_array_optimized], and [fill_array_regular] with it, writes
    inside the array only: the cells of the buffer before and after it,
    every other allocation and the tokens are as before; and a second fill
    changes nothing any more. *)
Theorem fill_array_optimized_frame arr s :
  ndim arr = 2%nat ->
  is_contiguous arr RowMajor = true ->
  valid_array s arr = true ->
  exists s1 s2,
    fill_array_optimized arr s = (Ok tt, s1) /\
    fill_array_regular arr s = (Ok tt, s1) /\
    fill_array_optimized arr s1 = (Ok tt, s2) /\
    heap s2 = heap s1 /\
    tokens s1 = tokens s /\
    (forall b, b <> p_block (data arr) -> heap s1 !! b = heap s !! b) /\
    (forall off,
       off < p_off (data arr) \/
       p_off (data arr) + Z.of_nat (numel (shape arr)) <= off ->
       peek (heap s1) {| p_block := p_block (data arr); p_off := off |}
       = peek (heap s) {| p_block := p_block (data arr); p_off := off |}).
Proof.
  intros Hn Hc Hv. pose proof (shape_2d arr Hn) as Hsh.
  set (r := shape_at arr 0) in *. set (c := shape_at arr 1) in *.
  set (val := fun i j : nat => F32 (Float32.of_Z (wrap_size_t (Z.of_nat i * Z.of_nat j)))).
  destruct (valid_array_inv _ _ Hv) as (cells0 & Hb0 & Hoff & _ & _).
  destruct (fill_rows_contig (elem_ref2 arr) val arr s r c Hsh Hc Hv)
    as (cells & Hb & Hlen & Hfit & Hrun); [done|].
  set (o := Z.to_nat (p_off (data arr))) in *.
  set (s1 := written (p_block (data arr)) (patch cells o (rows_of val r c))
                     (rows_of (elem_ref2 arr) r c) s) in *.
  assert (Hrows : length (rows_of val r c) = (r * c)%nat)
    by (unfold rows_of; apply length_rows).
  assert (Hv1 : valid_array s1 arr = true).
  { apply valid_array_written; [done| |done]. by rewrite Hrows. }
  destruct (fill_rows_contig (elem_ref2 arr) val arr s1 r c Hsh Hc Hv1)
    as (cells1 & Hb1 & Hlen1 & Hfit1 & Hrun1); [done|].
  assert (Hcells1 : cells1 = patch cells o (rows_of val r c)).
  { unfold s1 in Hb1. rewrite heap_written in Hb1. by injection Hb1. }
  eexists s1, _. split; [exact Hrun|]. split; [exact Hrun|]. split; [exact Hrun1|].
  split; [|split; [done|split]].
  - unfold s1, written. cbn [heap].
    rewrite insert_insert_eq. do 2 f_equal. fold o. rewrite Hcells1.
    apply patch_patch; [done|lia].
  - intros b Hne. unfold s1, written. cbn [heap]. by rewrite lookup_insert_ne.
  - intros off Hout. unfold peek, resolve. cbn [p_block p_off].
    unfold s1. rewrite heap_written, Hb. unfold cell_index.
    rewrite length_patch by lia.
    rewrite Hsh in Hout. simpl in Hout. rewrite Nat.mul_1_r in Hout.
    destruct ((0 <=? off) && (off <? Z.of_nat (length cells))) eqn:Hin; [|done].
    apply andb_true_iff in Hin as [H0 H1]. apply Z.leb_le in H0. apply Z.ltb_lt in H1.
    unfold patch. rewrite Hrows.
    destruct Hout as [Hlow|Hhigh].
    + rewrite lookup_app_l by (rewrite length_take; lia).
      apply lookup_take_lt. lia.
    + rewrite lookup_app_r by (rewrite length_take; lia).
      rewrite length_take, Nat.min_l by lia.
      rewrite lookup_app_r by lia. rewrite Hrows, lookup_drop. f_equal. lia.
Qed.

Lemma fill_array_optimized_frame_witness :
  let arr := sample_array Float32 [2; 3]%nat in
  let s := sample_state 8 in
  exists s1 s2,
    fill_array_optimized arr s = (Ok tt, s1) /\
    fill_array_regular arr s = (Ok tt, s1) /\
    fill_array_optimized arr s1 = (Ok tt, s2) /\
    heap s2 = heap s1 /\
    tokens s1 = tokens s /\
    (forall b, b <> p_block (data arr) -> heap s1 !! b = heap s !! b) /\
    (forall off,
       off < p_off (data arr) \/
       p_off (data arr) + Z.of_nat (numel (shape arr)) <= off ->
       peek (heap s1) {| p_block := p_block (data arr); p_off := off |}
       = peek (heap s) {| p_block := p_block (data arr); p_off := off |}).
Proof.
  intros arr s. apply (fill_array_optimized_frame arr s); reflexivity.
Defined.

(** X13. The patterns of the specializer on arrays of any extents: a
    float32 array ends with [(float)(i*j) + 0.5f] at every [(i, j)]; an
    int32 array whose extents add up to at most [2^31] ends with exactly
    [i + j] there. *)
Theorem fill_array_specialized_patterns arr s :
  ndim arr = 2%nat ->
  is_contiguous arr RowMajor = true ->
  valid_array s arr = true ->
  exists s',
    snd (fill_array_specialized arr s) = s' /\
    (dtype arr = Float32 ->
     forall i j, (i < shape_at arr 0)%nat -> (j < shape_at arr 1)%nat ->
       peek (heap s') (elem_ref2 arr i j)
       = Some (F32 (Float32.add (Float32.of_Z (Z.of_nat i * Z.of_nat j)) Float32.half))) /\
    (dtype arr = Int32 ->
     Z.of_nat (shape_at arr 0 + shape_at arr 1) <= 2 ^ 31 ->
     forall i j, (i < shape_at arr 0)%nat -> (j < shape_at arr 1)%nat ->
       peek (heap s') (elem_ref2 arr i j) = Some (I32 (Z.of_nat i + Z.of_nat j))).
Proof.
  intros Hn Hc Hv.
  destruct (valid_array_inv _ _ Hv) as (cells & _ & Hoff & Hlen & Hfit).
  rewrite (shape_2d arr Hn) in Hlen. simpl in Hlen. rewrite Nat.mul_1_r in Hlen.
  destruct (fill_array_specialized_run arr s Hc Hv) as (s' & _ & Hrun & Hf & Hi & _).
  exists s'. rewrite Hrun. split; [done|]. split.
  - intros Hd i j Hi' Hj'. rewrite (Hf Hd Hn i j Hi' Hj'). unfold float_pattern.
    unfold wrap_size_t. rewrite Z.mod_small; [done|]. unfold size_t_modulus in *. nia.
  - intros Hd Hsum i j Hi' Hj'. rewrite (Hi Hd Hn i j Hi' Hj'). unfold int32_pattern.
    unfold wrap_size_t. rewrite Z.mod_small by (unfold size_t_modulus; lia).
    by rewrite to_int32_small by lia.
Qed.

Lemma fill_array_specialized_patterns_witness :
  let arr := sample_array Int32 [2; 3]%nat in
  let s := sample_state 6 in
  exists s',
    snd (fill_array_specialized arr s) = s' /\
    (dtype arr = Float32 ->
     forall i j, (i < shape_at arr 0)%nat -> (j < shape_at arr 1)%nat ->
       peek (heap s') (elem_ref2 arr i j)
       = Some (F32 (Float32.add (Float32.of_Z (Z.of_nat i * Z.of_nat j)) Float32.half))) /\
    (dtype arr = Int32 ->
     Z.of_nat (shape_at arr 0 + shape_at arr 1) <= 2 ^ 31 ->
     forall i j, (i < shape_at arr 0)%nat -> (j < shape_at arr 1)%nat ->
       peek (heap s') (elem_ref2 arr i j) = Some (I32 (Z.of_nat i + Z.of_nat j))).
Proof.
  intros arr s. apply (fill_array_specialized_patterns arr s); reflexivity.
Defined.

(** ** Routines composed *)

Lemma fill_array_optimized_result arr s :
  ndim arr = 2%nat ->
  is_contiguous arr RowMajor = true ->
  valid_array s arr = true ->
  exists s',
    fill_array_optimized arr s = (Ok tt, s') /\
    tokens s' = tokens s /\
    forall i j, (i < shape_at arr 0)%nat -> (j < shape_at arr 1)%nat ->
      peek (heap s') (elem_ref2 arr i j)
      = Some (F32 (Float32.of_Z (Z.of_nat i * Z.of_nat j))).
Proof.
  intros Hn Hc Hv. pose proof (shape_2d arr Hn) as Hsh.
  destruct (valid_array_inv _ _ Hv) as (cells0 & _ & Hoff & _ & _).
  set (val := fun i j : nat => F32 (Float32.of_Z (wrap_size_t (Z.of_nat i * Z.of_nat j)))).
  destruct (fill_rows_contig (elem_ref2 arr) val arr s _ _ Hsh Hc Hv)
    as (cells & Hb & Hlen & Hfit & Hrun); [done|].
  eexists. split; [exact Hrun|]. split; [reflexivity|].
  intros i j Hi Hj.
  rewrite (peek_filled arr s _ cells (elem_ref2 arr) val _ _ i j Hsh Hc Hoff Hlen eq_refl Hi Hj).
  unfold val, wrap_size_t. rewrite Z.mod_small; [done|].
  split; [lia|]. nia.
Qed.

(** X14. When its allocation succeeds, what [create_2d_array] exports can
    be handed straight to the fill routines: the array is two-dimensional,
    float32, on the cpu, C-contiguous and inside its live buffer, and
    [fill_array_optimized] then overwrites the sequential values with
    [float(i*j)] without touching the token that owns the buffer. *)
Theorem create_2d_array_then_fill free_store rows cols s :
  Z.of_nat rows * Z.of_nat cols * sizeof_float <= max_object_bytes ->
  Z.of_nat rows * Z.of_nat cols * sizeof_float <= free_store ->
  exists arr s1 s2 t,
    create_2d_array free_store rows cols s = (Ok arr, s1) /\
    dtype arr = Float32 /\ device arr = Cpu /\ ndim arr = 2%nat /\
    is_contiguous arr RowMajor = true /\
    valid_array s1 arr = true /\
    fill_array_optimized arr s1 = (Ok tt, s2) /\
    (forall i j, (i < rows)%nat -> (j < cols)%nat ->
       peek (heap s2) (elem_ref2 arr i j)
       = Some (F32 (Float32.of_Z (Z.of_nat i * Z.of_nat j)))) /\
    owner arr = Some t /\
    tokens s2 !! t = Some (Live (p_block (data arr)) delete_float_array 1).
Proof.
  intros Hmax Hfree. pose proof (array_bytes_fit rows cols Hmax) as Hfit.
  assert (Hrun := create_2d_array_run free_store rows cols s).
  rewrite Hfit in Hrun. specialize (Hrun Hmax Hfree). cbv zeta in Hrun.
  set (b := fresh (dom (heap s))) in *. set (t := fresh (dom (tokens s))) in *.
  match type of Hrun with _ = (Ok ?a, ?st) => set (arr := a) in *; set (s1 := st) in * end.
  assert (Hn : Z.to_nat (Z.of_nat rows * Z.of_nat cols) = (rows * cols)%nat) by lia.
  assert (Hsmall : Z.of_nat rows * Z.of_nat cols < size_t_modulus).
  { unfold sizeof_float, max_object_bytes, size_t_modulus in *. lia. }
  assert (Hc : is_contiguous arr RowMajor = true).
  { unfold is_contiguous, arr. cbn [shape strides packed_strides packed_c axes_match numel].
    rewrite ?Z.eqb_refl, ?orb_true_r. done. }
  assert (Hv : valid_array s1 arr = true).
  { unfold valid_array, arr, s1. cbn [data p_block p_off heap shape numel].
    rewrite lookup_insert_eq, length_map, length_seq, Hn.
    apply andb_true_iff. split; [apply andb_true_iff; split|].
    - done.
    - apply Z.leb_le. lia.
    - apply Z.ltb_lt. lia. }
  destruct (fill_array_optimized_result arr s1 eq_refl Hc Hv)
    as (s2 & Hfill & Htok & Hval).
  exists arr, s1, s2, t.
  split; [exact Hrun|]. do 5 (split; [done|]). split; [exact Hfill|].
  split; [exact Hval|]. split; [done|].
  rewrite Htok. unfold s1. cbn [tokens]. apply lookup_insert_eq.
Qed.

Lemma create_2d_array_then_fill_witness :
  exists arr s1 s2 t,
    create_2d_array 1024 2 3 (sample_state 4) = (Ok arr, s1) /\
    dtype arr = Float32 /\ device arr = Cpu /\ ndim arr = 2%nat /\
    is_contiguous arr RowMajor = true /\
    valid_array s1 arr = true /\
    fill_array_optimized arr s1 = (Ok tt, s2) /\
    (forall i j, (i < 2)%nat -> (j < 3)%nat ->
       peek (heap s2) (elem_ref2 arr i j)
       = Some (F32 (Float32.of_Z (Z.of_nat i * Z.of_nat j)))) /\
    owner arr = Some t /\
    tokens s2 !! t = Some (Live (p_block (data arr)) delete_float_array 1).
Proof.
  apply (create_2d_array_then_fill 1024 2 3 (sample_state 4));
    unfold sizeof_float, max_object_bytes; lia.
Defined.

(** X15. The view of a [Matrix4f] is the matrix itself: right after
    construction it reads sixteen zeros, it is a valid C-contiguous 4x4
    float32 array, and a fill through the view lands in the storage of the
    matrix, with no other allocation made or changed. *)
Theorem matrix4f_view_aliases s :
  exists m s1 s2,
    Matrix4f_init s = (Ok m, s1) /\
    heap s !! m = None /\
    contents2 (heap s1) (matrix4f_view m)
      = replicate 4 (replicate 4 (Some (F32 (S754_zero false)))) /\
    is_contiguous (matrix4f_view m) RowMajor = true /\
    valid_array s1 (matrix4f_view m) = true /\
    fill_array_regular (matrix4f_view m) s1 = (Ok tt, s2) /\
    heap s2 = <[m := Buffer (rows_of (fun i j : nat =>
                               F32 (Float32.of_Z (Z.of_nat i * Z.of_nat j))) 4 4)]> (heap s).
Proof.
  set (m := fresh (dom (heap s))).
  set (s1 := set_heap (<[m := Buffer (replicate 16 (F32 (S754_zero false)))]> (heap s)) s).
  assert (Hb : heap s1 !! m = Some (Buffer (replicate 16 (F32 (S754_zero false)))))
    by apply lookup_insert_eq.
  assert (Hv : valid_array s1 (matrix4f_view m) = true).
  { unfold valid_array. cbn [matrix4f_view data p_block p_off]. by rewrite Hb. }
  assert (Hc : is_contiguous (matrix4f_view m) RowMajor = true) by reflexivity.
  destruct (fill_rows_contig (elem_ref2 (matrix4f_view m))
              (fun i j : nat => F32 (Float32.of_Z (wrap_size_t (Z.of_nat i * Z.of_nat j))))
              (matrix4f_view m) s1 4 4 eq_refl Hc Hv)
    as (cells & Hb' & _ & _ & Hrun); [done|].
  cbn [matrix4f_view data p_block p_off] in Hb', Hrun.
  rewrite Hb in Hb'. injection Hb' as <-.
  exists m, s1. eexists.
  split; [reflexivity|]. split; [apply fresh_block|].
  split.
  { unfold contents2, peek, resolve.
    cbn [matrix4f_view data p_block p_off shape_at shape nth stride_at strides packed_c
         numel elem_ref2 seq map].
    rewrite Hb. reflexivity. }
  split; [done|]. split; [done|]. split; [exact Hrun|].
  unfold written, s1, set_heap. cbn [heap]. by rewrite insert_insert_eq.
Qed.
